(** * Sanmill NNUE evaluation core: data model and start-up sequence

    A shallow embedding of the declarations of [types.h],
    [nnue/nnue_accumulator.h], [nnue/nnue_architecture.h],
    [nnue/evaluate_nnue.h] and of [main], with the properties of the
    evaluator's specification stated over them. *)

From Stdlib Require Import ZArith Lia List Bool.
From stdpp Require Import base option list gmap.

Local Open Scope Z_scope.

(** ** Fixed-width integers

    C++ integers are modelled as [Z] together with the wrap-around of
    their width. *)

Module Int.

Definition wrap_unsigned (w z : Z) : Z := z mod 2 ^ w.

Definition wrap_signed (w z : Z) : Z :=
  (z + 2 ^ (w - 1)) mod 2 ^ w - 2 ^ (w - 1).

Definition in_signed (w z : Z) : Prop := - 2 ^ (w - 1) <= z < 2 ^ (w - 1).

Definition in_unsigned (w z : Z) : Prop := 0 <= z < 2 ^ w.

(** [(int)x], [(unsigned)x], [uint16_t(x)] and the reading of a
    [uint16_t] through the [int16_t] member of a union. *)
Definition to_int (z : Z) : Z := wrap_signed 32 z.
Definition to_unsigned (z : Z) : Z := wrap_unsigned 32 z.
Definition to_uint16 (z : Z) : Z := wrap_unsigned 16 z.
Definition to_int16 (z : Z) : Z := wrap_signed 16 z.

(** [int] arithmetic. *)
Definition add (a b : Z) : Z := to_int (a + b).

(** [unsigned] shifts. *)
Definition ushl (a n : Z) : Z := to_unsigned (Z.shiftl a n).
Definition ushr (a n : Z) : Z := Z.shiftr a n.

(** Saturation to the range of a signed integer of [w] bits. *)
Definition saturate_signed (w z : Z) : Z :=
  Z.max (- 2 ^ (w - 1)) (Z.min (2 ^ (w - 1) - 1) z).

(** Further [int] arithmetic; a division by zero has no result. *)
Definition sub (a b : Z) : Z := to_int (a - b).
Definition neg (a : Z) : Z := to_int (- a).
Definition mul (a b : Z) : Z := to_int (a * b).
Definition shl (a n : Z) : Z := to_int (Z.shiftl a n).
Definition div (a b : Z) : option Z :=
  if b =? 0 then None else Some (to_int (Z.quot a b)).

(** [uint8_t(x)] and [uint64_t] arithmetic. *)
Definition to_uint8 (z : Z) : Z := wrap_unsigned 8 z.
Definition to_uint64 (z : Z) : Z := wrap_unsigned 64 z.

End Int.

(** ** [types.h] *)

Module Types.

(** [enum Color { WHITE, BLACK, COLOR_NB = 2 }].  A value of the
    enumeration is its underlying integer: [static_cast<Color>] can
    produce values that no enumerator names. *)
Definition Color := Z.
Definition WHITE : Color := 0.
Definition BLACK : Color := 1.
Definition COLOR_NB : Z := 2.

(** [constexpr Color operator~(Color c) { return static_cast<Color>(c ^ 3); }] *)
Definition Color_not (c : Color) : Color := Z.lxor c 3.

(** [enum Score : int { SCORE_ZERO }] *)
Definition Score := Z.
Definition SCORE_ZERO : Score := 0.

(** [Score((int)((unsigned int)eg << 16) + mg)] *)
Definition make_score (mg eg : Z) : Score :=
  Int.add (Int.to_int (Int.ushl (Int.to_unsigned eg) 16)) mg.

(** [union { uint16_t u; int16_t s; } eg = { uint16_t(unsigned(s + 0x8000) >> 16) };
    return Value(eg.s);] *)
Definition eg_value (s : Score) : Z :=
  Int.to_int16 (Int.to_uint16 (Int.ushr (Int.to_unsigned (Int.add s 32768)) 16)).

(** [union { uint16_t u; int16_t s; } mg = { uint16_t(unsigned(s)) };
    return Value(mg.s);] *)
Definition mg_value (s : Score) : Z :=
  Int.to_int16 (Int.to_uint16 (Int.to_unsigned s)).

(** [enum Piece : uint8_t] *)
Definition Piece := Z.
Definition NO_PIECE : Piece := 0.
Definition BAN_PIECE : Piece := 15.
Definition W_PIECE : Piece := 16.
Definition B_PIECE : Piece := 32.
Definition PIECE_NB : Z := 64.

(** [enum Square : int] *)
Definition Square := Z.
Definition SQ_NONE : Square := 0.
Definition SQUARE_NB : Z := 24.
Definition SQUARE_ZERO : Square := 0.
Definition SQUARE_EXT_NB : Z := 40.
Definition SQ_BEGIN : Square := 8.
Definition SQ_END : Square := 32.

(** [constexpr bool is_ok(Square s)] *)
Definition is_ok (s : Square) : bool :=
  (s =? SQ_NONE) || ((SQ_BEGIN <=? s) && (s <? SQ_END)).

(** The squares of the board proper, [SQ_BEGIN] up to [SQ_END - 1]. *)
Definition on_board (s : Square) : bool := (SQ_BEGIN <=? s) && (s <? SQ_END).

(** [struct DirtyPiece]: the arrays all have the extent 12. *)
Definition DirtyPiece_extent : nat := 12.

Record DirtyPiece : Type := mkDirtyPiece {
  dirty_num : Z;
  piece : list Piece;
  handPiece : list Piece;
  handCount : list Z;
  from : list Square;
  to : list Square
}.

(** The shape the C++ declaration gives every value of the struct. *)
Definition DirtyPiece_wf (dp : DirtyPiece) : Prop :=
  length (piece dp) = DirtyPiece_extent /\
  length (handPiece dp) = DirtyPiece_extent /\
  length (handCount dp) = DirtyPiece_extent /\
  length (from dp) = DirtyPiece_extent /\
  length (to dp) = DirtyPiece_extent.

(** One piece-change record, the [i]-th column of the arrays:
    [piece[i]], [from[i]], [to[i]]. *)
Definition dirty_record (dp : DirtyPiece) (i : nat)
  : option (Piece * Square * Square) :=
  pc ← piece dp !! i; f ← from dp !! i; t ← to dp !! i; Some (pc, f, t).

(** The records in use, [0 <= i < dirty_num]. *)
Definition dirty_records (dp : DirtyPiece) : list (Piece * Square * Square) :=
  omap (dirty_record dp) (seq 0 (Z.to_nat (dirty_num dp))).

(** [enum PieceType] *)
Definition PieceType := Z.
Definition NO_PIECE_TYPE : PieceType := 0.
Definition WHITE_PIECE : PieceType := 1.
Definition BLACK_PIECE : PieceType := 2.
Definition BAN : PieceType := 3.
Definition ALL_PIECES : PieceType := 0.
Definition PIECE_TYPE_NB : Z := 4.
Definition IN_HAND : PieceType := 16.
Definition ON_BOARD : PieceType := 32.

(** [enum Value : int], the constants used below. *)
Definition Value := Z.
Definition MAX_PLY : Z := 48.
Definition VALUE_MATE : Value := 80.
Definition VALUE_MATE_IN_MAX_PLY : Value := Int.sub VALUE_MATE MAX_PLY.
Definition VALUE_MATED_IN_MAX_PLY : Value := Int.neg VALUE_MATE_IN_MAX_PLY.

(** [constexpr Piece operator~(Piece pc)] *)
Definition Piece_not (pc : Piece) : Piece :=
  if pc =? W_PIECE then B_PIECE else W_PIECE.

(** [constexpr Value mate_in(int ply) { return VALUE_MATE - ply; }] *)
Definition mate_in (ply : Z) : Value := Int.sub VALUE_MATE ply.

(** [constexpr Value mated_in(int ply) { return -VALUE_MATE + ply; }] *)
Definition mated_in (ply : Z) : Value := Int.add (Int.neg VALUE_MATE) ply.

(** [constexpr Value convert_mate_value(Value v, int ply)] *)
Definition convert_mate_value (v : Value) (ply : Z) : Value :=
  if v =? VALUE_MATE then mate_in ply
  else if v =? Int.neg VALUE_MATE then mated_in ply
  else v.

(** [enum File : int], [enum Rank : int] *)
Definition File := Z.
Definition Rank := Z.

(** [static_cast<Square>((f << 3) + r - 1)] *)
Definition make_square (f : File) (r : Rank) : Square :=
  Int.sub (Int.add (Int.shl f 3) r) 1.

(** [static_cast<File>(s >> 3)] *)
Definition file_of (s : Square) : File := Z.shiftr s 3.

(** [static_cast<Rank>((s & 0x07) + 1)] *)
Definition rank_of (s : Square) : Rank := Int.add (Z.land s 7) 1.

(** [constexpr Piece make_piece(Color c) { return static_cast<Piece>(c << 4); }]
    A [Piece] is a [uint8_t]. *)
Definition make_piece (c : Color) : Piece := Int.to_uint8 (Int.shl c 4).

(** [constexpr Piece make_piece(Color c, PieceType pt)] *)
Definition make_piece_of_type (c : Color) (pt : PieceType) : Piece :=
  if (pt =? WHITE_PIECE) || (pt =? BLACK_PIECE) then make_piece c
  else if pt =? BAN then BAN_PIECE
  else NO_PIECE.

(** [inline Color color_of(Piece pc)]:
    [assert(pc != NO_PIECE); return static_cast<Color>(pc >> 4);]
    A failed assertion gives no result. *)
Definition color_of (pc : Piece) : option Color :=
  if pc =? NO_PIECE then None else Some (Z.shiftr pc 4).

(** [constexpr PieceType type_of(Piece pc)] *)
Definition type_of_Piece (pc : Piece) : option PieceType :=
  if pc =? BAN_PIECE then Some BAN
  else
    c ← color_of pc;
    if c =? WHITE then Some WHITE_PIECE
    else
      c' ← color_of pc;
      if c' =? BLACK then Some BLACK_PIECE else Some NO_PIECE_TYPE.

(** [enum Move : int], [enum MoveType : int] *)
Definition Move := Z.
Definition MOVE_NONE : Move := 0.
Definition MOVE_NULL : Move := 65.

Inductive MoveType : Type := MOVETYPE_PLACE | MOVETYPE_MOVE | MOVETYPE_REMOVE.

(** [constexpr MoveType type_of(Move m)] *)
Definition type_of_Move (m : Move) : MoveType :=
  if m <? 0 then MOVETYPE_REMOVE
  else if negb (Z.land m 7936 =? 0) then MOVETYPE_MOVE
  else MOVETYPE_PLACE.

(** [constexpr Square to_sq(Move m)] *)
Definition to_sq (m : Move) : Square :=
  let m := if m <? 0 then Int.neg m else m in
  Z.land m 255.

(** [constexpr Square from_sq(Move m)] *)
Definition from_sq (m : Move) : Square :=
  let m := if m <? 0 then Int.neg m else m in
  Z.shiftr m 8.

(** [static_cast<Move>((from << 8) + to)] *)
Definition make_move (from to : Square) : Move :=
  Int.add (Int.shl from 8) to.

(** [constexpr Move reverse_move(Move m)] *)
Definition reverse_move (m : Move) : Move :=
  make_move (to_sq m) (from_sq m).

(** [inline bool is_ok(Move m) { return from_sq(m) != to_sq(m); }] *)
Definition is_ok_Move (m : Move) : bool :=
  negb (from_sq m =? to_sq m).

(** [typedef uint64_t Key;]
    [seed * 6364136223846793005ULL + 1442695040888963407ULL] *)
Definition Key := Z.

Definition make_key (seed : Z) : Key :=
  Int.to_uint64 (Int.to_uint64 (seed * 6364136223846793005) + 1442695040888963407).

(** [enum PieceSet : uint64_t] and its operators. *)
Definition PieceSet := Z.
Definition NO_PIECE_SET : PieceSet := 0.

(** [constexpr PieceSet piece_set(PieceType pt) { return PieceSet(1ULL << pt); }] *)
Definition piece_set (pt : PieceType) : PieceSet :=
  Int.to_uint64 (Z.shiftl 1 pt).

(** [operator~ (PieceSet)], [operator| (PieceSet, PieceSet)],
    [operator& (PieceSet, PieceSet)] *)
Definition PieceSet_not (ps : PieceSet) : PieceSet := Int.to_uint64 (Z.lnot ps).
Definition PieceSet_or (ps1 ps2 : PieceSet) : PieceSet := Z.lor ps1 ps2.
Definition PieceSet_and (ps1 ps2 : PieceSet) : PieceSet := Z.land ps1 ps2.

(** [operator| (PieceSet ps, PieceType pt) { return ps | piece_set(pt); }],
    [operator& (PieceSet ps, PieceType pt) { return ps & piece_set(pt); }] *)
Definition PieceSet_add (ps : PieceSet) (pt : PieceType) : PieceSet :=
  PieceSet_or ps (piece_set pt).
Definition PieceSet_test (ps : PieceSet) (pt : PieceType) : PieceSet :=
  PieceSet_and ps (piece_set pt).

(** [Score] arithmetic: [operator+(Score, int)], [operator-(Score)]
    from [ENABLE_BASE_OPERATORS_ON(Score)]; a [Score] operand on the
    right converts to [int]. *)
Definition Score_add (d1 : Score) (d2 : Z) : Score := Int.add d1 d2.
Definition Score_neg (d : Score) : Score := Int.neg d.

(** [inline Score operator/(Score s, int i)]:
    [make_score(mg_value(s) / i, eg_value(s) / i)] *)
Definition Score_div (s : Score) (i : Z) : option Score :=
  m ← Int.div (mg_value s) i;
  e ← Int.div (eg_value s) i;
  Some (make_score m e).

(** [inline Score operator*(Score s, int i)]: the product of the packed
    integer, checked by three assertions; a failed assertion gives no
    result. *)
Definition Score_mul (s : Score) (i : Z) : option Score :=
  let result := Int.mul s i in
  if negb (eg_value result =? Int.mul i (eg_value s)) then None
  else if negb (mg_value result =? Int.mul i (mg_value s)) then None
  else if negb ((i =? 0)
                || match Score_div result i with
                   | Some q => q =? s
                   | None => false
                   end) then None
  else Some result.

(** [inline Score operator*(Score s, bool b) { return b ? s : SCORE_ZERO; }] *)
Definition Score_mul_bool (s : Score) (b : bool) : Score :=
  if b then s else SCORE_ZERO.

End Types.


(** ** [nnue/nnue_architecture.h], [nnue/nnue_accumulator.h] *)

Module Architecture.

Definition TransformedFeatureDimensions : nat := 512.
Definition PSQTBuckets : nat := 8.
Definition LayerStacks : nat := 8.

(** Modelled from the spec: the layer templates [InputSlice],
    [AffineTransform] and [ClippedReLU] are defined in [layers/*.h],
    which are missing.  A layer type is kept as the term the header
    writes:
    every template names the layer it consumes and, for the slice and
    the affine transform, its number of outputs; the clipped
    activation keeps the width of its input. *)
Inductive Layer : Type :=
| InputSlice (OutputDims : nat)
| AffineTransform (PreviousLayer : Layer) (OutputDims : nat)
| ClippedReLU (PreviousLayer : Layer).

Definition InputLayer : Layer := InputSlice (TransformedFeatureDimensions * 2).
Definition HiddenLayer1 : Layer := ClippedReLU (AffineTransform InputLayer 16).
Definition HiddenLayer2 : Layer := ClippedReLU (AffineTransform HiddenLayer1 32).
Definition OutputLayer : Layer := AffineTransform HiddenLayer2 1.

Definition Network : Layer := OutputLayer.

Fixpoint OutputDimensions (l : Layer) : nat :=
  match l with
  | InputSlice n => n
  | AffineTransform _ n => n
  | ClippedReLU p => OutputDimensions p
  end.

(** The stages of a layer type in the order in which they are applied:
    a layer first runs the layer it consumes. *)
Inductive Stage : Type :=
| StInput (width : nat)
| StAffine (inputs outputs : nat)
| StClip (width : nat).

Fixpoint stages (l : Layer) : list Stage :=
  match l with
  | InputSlice n => [StInput n]
  | AffineTransform p n => stages p ++ [StAffine (OutputDimensions p) n]
  | ClippedReLU p => stages p ++ [StClip (OutputDimensions p)]
  end.

(** The transforms applied to the sliced input. *)
Definition transforms (l : Layer) : list Stage :=
  List.filter (fun s => match s with StInput _ => false | _ => true end)
    (stages l).

(** The output widths of the affine transforms, in order. *)
Definition affine_widths (l : Layer) : list nat :=
  omap (fun s => match s with StAffine _ n => Some n | _ => None end) (stages l).

(** Forward evaluation over the arithmetic of the two layer kinds,
    which the layer headers define. *)
Record LayerOps : Type := mkLayerOps {
  affine : nat -> nat -> list Z -> list Z;
  clip : list Z -> list Z
}.

Fixpoint propagate (ops : LayerOps) (l : Layer) (input : list Z) : list Z :=
  match l with
  | InputSlice n => take n input
  | AffineTransform p n => affine ops (OutputDimensions p) n (propagate ops p input)
  | ClippedReLU p => clip ops (propagate ops p input)
  end.

(** The pipeline of four transforms with a narrowing second affine
    transform and no activation before the output layer. *)
Definition narrowing_pipeline (input w1 w2 : nat) : list Stage :=
  [StAffine input w1; StClip w1; StAffine w1 w2; StAffine w2 1].

(** [struct alignas(CacheLineSize) Accumulator]:
    [std::int16_t accumulation[2][TransformedFeatureDimensions];
     std::int32_t psqtAccumulation[2][PSQTBuckets];
     bool computed[2];] *)
Record Accumulator : Type := mkAccumulator {
  accumulation : list (list Z);
  psqtAccumulation : list (list Z);
  computed : list bool
}.

(** The element types and extents of the three members. *)
Definition is_array (n : nat) {A} (elem : A -> Prop) (l : list A) : Prop :=
  length l = n /\ Forall elem l.

Definition Accumulator_wf (a : Accumulator) : Prop :=
  is_array 2 (is_array TransformedFeatureDimensions (Int.in_signed 16))
    (accumulation a) /\
  is_array 2 (is_array PSQTBuckets (Int.in_signed 32)) (psqtAccumulation a) /\
  is_array 2 (fun _ => True) (computed a).

Definition Accumulator_zero : Accumulator :=
  mkAccumulator
    (replicate 2 (replicate TransformedFeatureDimensions 0))
    (replicate 2 (replicate PSQTBuckets 0))
    (replicate 2 false).

End Architecture.

(** ** [nnue/evaluate_nnue.h] *)

Module EvaluateNNUE.

(** [constexpr std::uint32_t HashValue =
      FeatureTransformer::get_hash_value() ^ Network::get_hash_value();]
    The two component hashes are computed by missing headers and are
    taken as arguments. *)
Definition HashValue (FeatureTransformer_hash Network_hash : Z) : Z :=
  Z.lxor FeatureTransformer_hash Network_hash.

(** *** Memory

    Modelled from the spec: the definitions of [std_aligned_free] and
    [aligned_large_pages_free] are missing.  A
    buffer records the allocation strategy that produced it and
    whether an object lives in it; each deallocator releases only the
    buffers of its own strategy. *)
Inductive Strategy : Type := StdAligned | LargePages.

Definition Strategy_eqb (a b : Strategy) : bool :=
  match a, b with
  | StdAligned, StdAligned | LargePages, LargePages => true
  | _, _ => false
  end.

Record Block : Type := mkBlock { strategy : Strategy; constructed : bool }.

Inductive Event : Type :=
| EvDestructor (p : Z)
| EvStdAlignedFree (p : Z)
| EvLargePagesFree (p : Z).

#[global] Instance Event_eq_dec : EqDecision Event := ltac:(solve_decision).

Record Memory : Type := mkMemory {
  heap : gmap Z Block;
  trace : list Event
}.

Inductive Fault : Type :=
| NoLiveObject
| InvalidFree
| MismatchedFree.

Definition M (A : Type) : Type := Memory -> Fault + (A * Memory).

Definition ret {A} (a : A) : M A := fun m => inr (a, m).

Definition bind {A B} (c : M A) (k : A -> M B) : M B :=
  fun m => match c m with
           | inl e => inl e
           | inr (a, m') => k a m'
           end.

Notation "c1 ;;; c2" := (bind c1 (fun _ => c2))
  (at level 100, c2 at level 200, right associativity).

(** [ptr->~T()] *)
Definition destructor (p : Z) : M unit := fun m =>
  match heap m !! p with
  | Some (mkBlock s true) =>
      inr (tt, mkMemory (<[p := mkBlock s false]> (heap m))
                        (trace m ++ [EvDestructor p]))
  | _ => inl NoLiveObject
  end.

Definition free_of (s : Strategy) (ev : Z -> Event) (p : Z) : M unit := fun m =>
  match heap m !! p with
  | Some b =>
      if Strategy_eqb (strategy b) s
      then inr (tt, mkMemory (delete p (heap m)) (trace m ++ [ev p]))
      else inl MismatchedFree
  | None => inl InvalidFree
  end.

Definition std_aligned_free : Z -> M unit := free_of StdAligned EvStdAlignedFree.

Definition aligned_large_pages_free : Z -> M unit :=
  free_of LargePages EvLargePagesFree.

(** [AlignedDeleter<T>::operator()]: [ptr->~T(); std_aligned_free(ptr);] *)
Definition AlignedDeleter (ptr : Z) : M unit :=
  destructor ptr ;;; std_aligned_free ptr.

(** [LargePageDeleter<T>::operator()]:
    [ptr->~T(); aligned_large_pages_free(ptr);] *)
Definition LargePageDeleter (ptr : Z) : M unit :=
  destructor ptr ;;; aligned_large_pages_free ptr.

(** [std::unique_ptr<T, D>]: the owned pointer, if any, and the deleter
    type fixed by the handle's type. *)
Inductive DeleterType : Type := AlignedDeleter_t | LargePageDeleter_t.

Record unique_ptr : Type := mk_unique_ptr {
  deleter_type : DeleterType;
  get : option Z
}.

Definition AlignedPtr (p : Z) : unique_ptr := mk_unique_ptr AlignedDeleter_t (Some p).
Definition LargePagePtr (p : Z) : unique_ptr :=
  mk_unique_ptr LargePageDeleter_t (Some p).

Definition get_deleter (u : unique_ptr) : Z -> M unit :=
  match deleter_type u with
  | AlignedDeleter_t => AlignedDeleter
  | LargePageDeleter_t => LargePageDeleter
  end.

(** Release of the handle (destruction or [reset()]): the deleter runs
    on a non-null pointer and the handle is left null. *)
Definition release (u : unique_ptr) : M unique_ptr :=
  match get u with
  | Some p => get_deleter u p ;;; ret (mk_unique_ptr (deleter_type u) None)
  | None => ret u
  end.

(** The deallocation events of a trace for the buffer [p]. *)
Definition frees_of (p : Z) (t : list Event) : list Event :=
  filter (fun e => e = EvStdAlignedFree p \/ e = EvLargePagesFree p) t.

Definition destructions_of (p : Z) (t : list Event) : list Event :=
  filter (fun e => e = EvDestructor p) t.

End EvaluateNNUE.

(** ** Accumulator transitions *)

Module FeatureTransformer.
Import Types Architecture.

(** Modelled from the spec: the feature transformer
    ([nnue_feature_transformer.h]) and the feature set
    ([features/half_ka_v2_variants.h]) are missing.  The
    parameters are the encoding of a piece on a square for a
    perspective, the bias of the transformer (vector part and bucket
    part) and one weight row per feature (vector part and bucket
    part); [weights i j] stands for the entry [j] of the row of the
    feature [i]. *)
Record Params : Type := mkParams {
  make_index : Color -> Square -> Piece -> nat;
  biases : nat -> Z;
  psqtBiases : nat -> Z;
  weights : nat -> nat -> Z;
  psqtWeights : nat -> nat -> Z
}.

(** A board state: the piece on every square, [NO_PIECE] on an empty
    one. *)
Definition Board : Type := Square -> Piece.

Definition board_squares : list Square :=
  map Z.of_nat (seq (Z.to_nat SQ_BEGIN) (Z.to_nat (SQ_END - SQ_BEGIN))).

Definition perspectives : list Color := [WHITE; BLACK].

(** Modelled from the spec: the Feature Encoder, a pure function of
    the board state giving the active features of a perspective in
    the order of the squares; an occupied square contributes the
    feature of its piece. *)
Definition square_feature (P : Params) (perspective : Color) (b : Board)
    (s : Square) : option nat :=
  if b s =? NO_PIECE then None else Some (make_index P perspective s (b s)).

Definition active_features (P : Params) (perspective : Color) (b : Board)
  : list nat :=
  omap (square_feature P perspective b) board_squares.

(** Modelled from the spec: the features a delta turns off (records
    whose source is a square) and on (records whose destination is a
    square). *)
Definition records_removed (P : Params) (perspective : Color)
    (rs : list (Piece * Square * Square)) : list nat :=
  omap (fun '(pc, f, _) => if f =? SQ_NONE then None
                           else Some (make_index P perspective f pc)) rs.

Definition records_added (P : Params) (perspective : Color)
    (rs : list (Piece * Square * Square)) : list nat :=
  omap (fun '(pc, _, t) => if t =? SQ_NONE then None
                           else Some (make_index P perspective t pc)) rs.

Definition removed_features (P : Params) (perspective : Color) (dp : DirtyPiece)
  : list nat :=
  records_removed P perspective (dirty_records dp).

Definition added_features (P : Params) (perspective : Color) (dp : DirtyPiece)
  : list nat :=
  records_added P perspective (dirty_records dp).

(** Modelled from the spec: the arithmetic of an accumulator vector is
    saturating fixed-point arithmetic.  An entry is a signed integer
    of [w] bits; a sum or a difference that leaves the range of the
    entry is clipped to the nearest bound. *)
Definition store (w : Z) (n : nat) (src : nat -> Z) : list Z :=
  map (fun j => Int.saturate_signed w (src j)) (seq 0 n).

Definition add_row (w : Z) (row : nat -> Z) (acc : list Z) : list Z :=
  imap (fun j a => Int.saturate_signed w (a + row j)) acc.

Definition sub_row (w : Z) (row : nat -> Z) (acc : list Z) : list Z :=
  imap (fun j a => Int.saturate_signed w (a - row j)) acc.

Definition add_rows (w : Z) (rows : nat -> nat -> Z) (acc : list Z)
    (features : list nat) : list Z :=
  fold_left (fun acc i => add_row w (rows i) acc) features acc.

Definition sub_rows (w : Z) (rows : nat -> nat -> Z) (acc : list Z)
    (features : list nat) : list Z :=
  fold_left (fun acc i => sub_row w (rows i) acc) features acc.

(** Modelled from the spec: full refresh of one perspective, the sum
    of the weight rows of the active features, starting from the
    bias. *)
Definition refresh_vector (P : Params) (perspective : Color) (b : Board)
  : list Z :=
  add_rows 16 (weights P) (store 16 TransformedFeatureDimensions (biases P))
    (active_features P perspective b).

Definition refresh_psqt (P : Params) (perspective : Color) (b : Board)
  : list Z :=
  add_rows 32 (psqtWeights P) (store 32 PSQTBuckets (psqtBiases P))
    (active_features P perspective b).

Definition refresh (P : Params) (b : Board) : Accumulator :=
  mkAccumulator
    (map (fun c => refresh_vector P c b) perspectives)
    (map (fun c => refresh_psqt P c b) perspectives)
    (map (fun _ => true) perspectives).

(** Modelled from the spec: incremental update of one perspective,
    the rows of the features turned off subtracted and the rows of
    the features turned on added. *)
Definition update_vector (P : Params) (dp : DirtyPiece) (perspective : Color)
    (acc : list Z) : list Z :=
  add_rows 16 (weights P)
    (sub_rows 16 (weights P) acc (removed_features P perspective dp))
    (added_features P perspective dp).

Definition update_psqt (P : Params) (dp : DirtyPiece) (perspective : Color)
    (acc : list Z) : list Z :=
  add_rows 32 (psqtWeights P)
    (sub_rows 32 (psqtWeights P) acc (removed_features P perspective dp))
    (added_features P perspective dp).

(** Modelled from the spec: the fatal internal-consistency failure.  A
    delta may only turn off a feature that is active and only turn on
    a feature that is not: the features are taken off the active ones
    one at a time, then put on one at a time. *)
Inductive Fatal : Type := InternalConsistency.

Fixpoint remove_feature (x : nat) (active : list nat) : option (list nat) :=
  match active with
  | [] => None
  | y :: active' =>
      if decide (x = y) then Some active'
      else rest ← remove_feature x active'; Some (y :: rest)
  end.

Fixpoint remove_features (active removed : list nat) : option (list nat) :=
  match removed with
  | [] => Some active
  | x :: removed' =>
      active' ← remove_feature x active; remove_features active' removed'
  end.

Fixpoint add_features (active added : list nat) : option (list nat) :=
  match added with
  | [] => Some active
  | x :: added' =>
      if decide (x ∈ active) then None else add_features (x :: active) added'
  end.

Definition delta_applies (active removed added : list nat) : bool :=
  match kept ← remove_features active removed; add_features kept added with
  | Some _ => true
  | None => false
  end.

(** The update reads the parent's accumulator, which is an error
    unless both perspectives of the parent are fresh, and checks the
    delta against the features active on the parent's board [b]. *)
Definition update (P : Params) (b : Board) (dp : DirtyPiece)
    (parent : Accumulator) : Fatal + Accumulator :=
  match computed parent with
  | [true; true] =>
      if forallb (fun c => delta_applies (active_features P c b)
                             (removed_features P c dp) (added_features P c dp))
           perspectives
      then inr (mkAccumulator
                  (zip_with (update_vector P dp) perspectives
                     (accumulation parent))
                  (zip_with (update_psqt P dp) perspectives
                     (psqtAccumulation parent))
                  (map (fun _ => true) perspectives))
      else inl InternalConsistency
  | _ => inl InternalConsistency
  end.

(** The updates along a line of moves, each move given with its delta
    and the board it leads to. *)
Fixpoint update_along (P : Params) (b : Board) (acc : Accumulator)
    (moves : list (DirtyPiece * Board)) : Fatal + Accumulator :=
  match moves with
  | [] => inr acc
  | (dp, b') :: moves' =>
      match update P b dp acc with
      | inl e => inl e
      | inr acc' => update_along P b' acc' moves'
      end
  end.



Fixpoint final_board (b : Board) (moves : list (DirtyPiece * Board)) : Board :=
  match moves with
  | [] => b
  | (_, b') :: moves' => final_board b' moves'
  end.

(** Sum of the entries [j] of the rows of a list of features, and of
    their absolute values, as unbounded integers. *)
Definition row_sum (rows : nat -> nat -> Z) (features : list nat) (j : nat) : Z :=
  fold_right (fun i s => rows i j + s) 0 features.






End FeatureTransformer.

(** ** Weight store *)

Module WeightStore.

Inductive LoadError : Type := IncompatibleTopology | TruncatedData.

(** Modelled from the spec: [load] of the weight store (the reading
    of the parameters in [evaluate_nnue.cpp]) is missing.  The reader
    keeps the bytes not yet read, the number of bytes read so far and
    the sizes of the buffers allocated. *)
Record Reader : Type := mkReader {
  input : list Byte.byte;
  bytes_read : nat;
  allocated : list nat
}.

Definition open_source (source : list Byte.byte) : Reader :=
  mkReader source 0 [].

Definition L (A : Type) : Type := Reader -> (LoadError + A) * Reader.

Definition lret {A} (a : A) : L A := fun r => (inr a, r).

Definition throw {A} (e : LoadError) : L A := fun r => (inl e, r).

Definition lbind {A B} (c : L A) (k : A -> L B) : L B :=
  fun r => match c r with
           | (inl e, r') => (inl e, r')
           | (inr a, r') => k a r'
           end.

Notation "x <~ c1 ; c2" := (lbind c1 (fun x => c2))
  (at level 100, c1 at next level, c2 at level 200, right associativity).

Definition read (n : nat) : L (list Byte.byte) := fun r =>
  if (length (input r) <? n)%nat then (inl TruncatedData, r)
  else (inr (take n (input r)),
        mkReader (drop n (input r)) (bytes_read r + n) (allocated r)).

Definition remaining : L nat := fun r => (inr (length (input r)), r).

Definition allocate (n : nat) : L unit := fun r =>
  (inr tt, mkReader (input r) (bytes_read r) (allocated r ++ [n])).

(** The hash field has the width of [HashValue], 32 bits. *)
Definition hash_field_bytes : nat := 4.

(** Modelled from the spec: the header's hash is read and compared
    with the compiled one; then the length is checked against what the
    topology requires; on success the blob is allocated and filled.
    [decode] reads the hash field and [required] is the number of
    parameter bytes of the compiled topology. *)
Definition load (decode : list Byte.byte -> Z) (compiled_hash : Z)
    (required : nat) : L (list Byte.byte) :=
  field <~ read hash_field_bytes;
  if decode field =? compiled_hash then
    n <~ remaining;
    if (n <? required)%nat then throw TruncatedData
    else _ <~ allocate required; read required
  else throw IncompatibleTopology.

End WeightStore.

(** ** [main] *)

Module Main.

(** The argument of the two calls of [Threads.set]. *)
Inductive ThreadsArg : Type := Options_Threads | Zero.

(** The calls of [main], in the order of its statements. *)
Inductive Call : Type :=
| engine_info
| pieceMap_init
| variants_init
| CommandLine_init
| UCI_init
| Tune_init
| PSQT_init
| Bitboards_init
| Position_init
| Bitbases_init
| Endgames_init
| Threads_set (n : ThreadsArg)
| Search_clear
| Eval_NNUE_init
| UCI_loop
| variants_clear_all
| pieceMap_clear_all
| delete_stateMachine.

#[global] Instance ThreadsArg_eq_dec : EqDecision ThreadsArg :=
  ltac:(solve_decision).

#[global] Instance Call_eq_dec : EqDecision Call := ltac:(solve_decision).

Definition main : list Call :=
  [ engine_info;
    pieceMap_init;
    variants_init;
    CommandLine_init;
    UCI_init;
    Tune_init;
    PSQT_init;
    Bitboards_init;
    Position_init;
    Bitbases_init;
    Endgames_init;
    Threads_set Options_Threads;
    Search_clear;
    Eval_NNUE_init;
    UCI_loop;
    Threads_set Zero;
    variants_clear_all;
    pieceMap_clear_all;
    delete_stateMachine ].

(** Number of times a call is made. *)
Definition calls (c : Call) (l : list Call) : nat :=
  length (filter (fun x => x = c) l).

(** Position of the first occurrence of a call. *)
Fixpoint first_call (c : Call) (l : list Call) : option nat :=
  match l with
  | [] => None
  | x :: l' => if decide (x = c) then Some 0%nat
               else S <$> first_call c l'
  end.

(** The calls made after the first occurrence of a call. *)
Definition calls_after (c : Call) (l : list Call) : list Call :=
  match first_call c l with
  | Some i => drop (S i) l
  | None => []
  end.

(** Both calls are made and the first [a] comes before the first [b]. *)
Definition precedes (a b : Call) (l : list Call) : bool :=
  match first_call a l, first_call b l with
  | Some i, Some j => (i <? j)%nat
  | _, _ => false
  end.

(** *** The weight store during [main]

    Modelled from the spec: [Threads.set], [Eval::NNUE::init] and
    [UCI::loop] are defined in missing files ([thread.cpp],
    [evaluate_nnue.cpp], [uci.cpp]).  [Threads.set] with the configured
    number brings the worker threads up (the comment in [main] reads
    "After threads are up") and with 0 takes them down;
    [Eval::NNUE::init] loads the weight blob into the store;
    [UCI::loop] runs the searches, whose evaluations read the store
    and never write it; the other calls do not touch the store. *)
Record Process : Type := mkProcess {
  workers_up : bool;
  store : option (list Byte.byte);
  store_writes : nat;
  init_saw_workers : list bool;
  reads : nat;
  reads_before_init : nat
}.

Definition start : Process := mkProcess false None 0 [] 0 0.

(** One call of [main]; [blob] is the weight blob the configuration
    selects and [evals] the number of evaluations of the command
    loop. *)
Definition step (blob : list Byte.byte) (evals : nat) (p : Process) (c : Call)
  : Process :=
  match c with
  | Threads_set Options_Threads =>
      mkProcess true (store p) (store_writes p) (init_saw_workers p)
        (reads p) (reads_before_init p)
  | Threads_set Zero =>
      mkProcess false (store p) (store_writes p) (init_saw_workers p)
        (reads p) (reads_before_init p)
  | Eval_NNUE_init =>
      mkProcess (workers_up p) (Some blob) (S (store_writes p))
        (init_saw_workers p ++ [workers_up p])
        (reads p) (reads_before_init p)
  | UCI_loop =>
      mkProcess (workers_up p) (store p) (store_writes p) (init_saw_workers p)
        (reads p + evals)
        (match store p with
         | Some _ => reads_before_init p
         | None => reads_before_init p + evals
         end)
  | _ => p
  end.

(** The states after each call, in order. *)
Fixpoint states (blob : list Byte.byte) (evals : nat) (p : Process)
    (l : list Call) : list Process :=
  match l with
  | [] => []
  | c :: l' => step blob evals p c :: states blob evals (step blob evals p c) l'
  end.

Definition run (blob : list Byte.byte) (evals : nat) (p : Process)
    (l : list Call) : Process :=
  fold_left (step blob evals) l p.

(** The states from the first initialisation of the store on. *)
Definition states_from_init (blob : list Byte.byte) (evals : nat)
    (p : Process) (l : list Call) : list Process :=
  match first_call Eval_NNUE_init l with
  | Some i => drop i (states blob evals p l)
  | None => []
  end.

End Main.

(** ** Concrete instances *)

Module Examples.
Import Types Architecture FeatureTransformer EvaluateNNUE WeightStore.

(** A small transformer and a line of two moves: a move of a white
    piece and the removal of a black piece. *)
Definition P0 : Params :=
  mkParams
    (fun c s pc => Z.to_nat (s + SQUARE_EXT_NB * (pc + PIECE_NB * c)))
    (fun j => Z.of_nat j - 300)
    (fun k => Z.of_nat k)
    (fun i j => Z.of_nat ((i + j) mod 50) - 25)
    (fun i k => 65537 * Z.of_nat ((i + 3 * k) mod 100)).

(** A transformer whose rows are large enough to saturate an entry
    with two active features. *)
Definition P1 : Params :=
  mkParams
    (fun c s pc => Z.to_nat (s + SQUARE_EXT_NB * (pc + PIECE_NB * c)))
    (fun _ => 0)
    (fun _ => 0)
    (fun _ _ => 30000)
    (fun _ _ => 0).

Definition b0 : Board :=
  fun s => if s =? 8 then W_PIECE else if s =? 9 then B_PIECE else NO_PIECE.

Definition b1 : Board :=
  fun s => if s =? 16 then W_PIECE else if s =? 9 then B_PIECE else NO_PIECE.

Definition b2 : Board :=
  fun s => if s =? 16 then W_PIECE else NO_PIECE.

Definition one_record (pc : Piece) (f t : Square) : DirtyPiece :=
  mkDirtyPiece 1
    (pc :: replicate 11 NO_PIECE)
    (replicate 12 NO_PIECE)
    (replicate 12 0)
    (f :: replicate 11 SQ_NONE)
    (t :: replicate 11 SQ_NONE).

Definition line0 : list (DirtyPiece * Board) :=
  [(one_record W_PIECE 8 16, b1); (one_record B_PIECE 9 SQ_NONE, b2)].

(** The white piece alone, and the removal of the black piece from
    [b0]. *)
Definition b3 : Board :=
  fun s => if s =? 8 then W_PIECE else NO_PIECE.

Definition line1 : list (DirtyPiece * Board) :=
  [(one_record B_PIECE 9 SQ_NONE, b3)].

(** The first entry of the vector of the perspective [WHITE]. *)
Definition first_entry (r : Fatal + Accumulator) : option Z :=
  match r with
  | inr a => v ← head (accumulation a); head v
  | inl _ => None
  end.

(** A heap with one live buffer of each allocation strategy. *)
Definition m0 : Memory :=
  mkMemory
    (<[ 64 := mkBlock LargePages true ]>
       (<[ 128 := mkBlock StdAligned true ]> ∅))
    [].

(** The hash field read as a little-endian 32-bit number. *)
Fixpoint le_combine (l : list Byte.byte) : Z :=
  match l with
  | [] => 0
  | b :: l' => Z.of_N (Byte.to_N b) + 256 * le_combine l'
  end.

Definition header0 : list Byte.byte := [Byte.x78; Byte.x56; Byte.x34; Byte.x12].
Definition params0 : list Byte.byte := [Byte.x01; Byte.x02; Byte.x03].
Definition source0 : list Byte.byte := header0 ++ params0.

(** A well-formed delta with one record. *)
Definition dp0 : DirtyPiece := one_record W_PIECE 8 16.

End Examples.

(** * Properties *)

Module IntFacts.
Import Int.

Lemma wrap_signed_range w z : 0 < w -> in_signed w (wrap_signed w z).
Proof.
  intros Hw. unfold in_signed, wrap_signed.
  assert (H2 : 2 ^ w = 2 * 2 ^ (w - 1)).
  { replace w with (Z.succ (w - 1)) at 1 by lia. apply Z.pow_succ_r. lia. }
  assert (Hp : 0 < 2 ^ (w - 1)) by (apply Z.pow_pos_nonneg; lia).
  pose proof (Z.mod_pos_bound (z + 2 ^ (w - 1)) (2 ^ w)). lia.
Qed.

Lemma wrap_signed_small w z : 0 < w -> in_signed w z -> wrap_signed w z = z.
Proof.
  intros Hw [Hl Hu]. unfold wrap_signed.
  assert (H2 : 2 ^ w = 2 * 2 ^ (w - 1)).
  { replace w with (Z.succ (w - 1)) at 1 by lia. apply Z.pow_succ_r. lia. }
  rewrite Z.mod_small by lia. lia.
Qed.

(** Wrapping does not change the residue. *)
Lemma wrap_signed_mod w z : 0 < w -> wrap_signed w z mod 2 ^ w = z mod 2 ^ w.
Proof.
  intros Hw. unfold wrap_signed.
  assert (Hp : 0 < 2 ^ w) by (apply Z.pow_pos_nonneg; lia).
  rewrite Zminus_mod_idemp_l.
  f_equal. lia.
Qed.

Lemma wrap_signed_congr w a b :
  0 < w -> a mod 2 ^ w = b mod 2 ^ w -> wrap_signed w a = wrap_signed w b.
Proof.
  intros Hw H. unfold wrap_signed.
  rewrite <- (Zplus_mod_idemp_l a), <- (Zplus_mod_idemp_l b), H. reflexivity.
Qed.

Lemma wrap_signed_add_l w a b :
  0 < w -> wrap_signed w (wrap_signed w a + b) = wrap_signed w (a + b).
Proof.
  intros Hw. apply wrap_signed_congr; [assumption|].
  rewrite <- Zplus_mod_idemp_l, wrap_signed_mod by assumption.
  apply Zplus_mod_idemp_l.
Qed.

Lemma wrap_signed_sub_l w a b :
  0 < w -> wrap_signed w (wrap_signed w a - b) = wrap_signed w (a - b).
Proof.
  intros Hw. apply wrap_signed_congr; [assumption|].
  rewrite <- Zminus_mod_idemp_l, wrap_signed_mod by assumption.
  apply Zminus_mod_idemp_l.
Qed.

End IntFacts.

Module TypesFacts.
Import Types.

Example make_score_ex1 : make_score 5 (-3) = -196603.
Proof. reflexivity. Qed.

Example mg_value_ex1 : mg_value (make_score (-7) 12) = -7.
Proof. reflexivity. Qed.

Example eg_value_ex1 : eg_value (make_score (-7) (-12)) = -12.
Proof. reflexivity. Qed.

Example eg_value_ex2 : eg_value (make_score (-32768) (-32768)) = -32768.
Proof. reflexivity. Qed.

Ltac unfold_score :=
  unfold mg_value, eg_value, make_score, Int.add, Int.ushl, Int.ushr,
    Int.to_int16, Int.to_uint16, Int.to_unsigned, Int.to_int,
    Int.wrap_signed, Int.wrap_unsigned, Int.in_signed in *;
  rewrite ?Z.shiftl_mul_pow2, ?Z.shiftr_div_pow2 by lia;
  change (2 ^ 32) with 4294967296 in *;
  change (2 ^ (32 - 1)) with 2147483648 in *;
  change (2 ^ 16) with 65536 in *;
  change (2 ^ (16 - 1)) with 32768 in *.

Lemma mg_value_make_score mg eg :
  Int.in_signed 16 mg -> Int.in_signed 16 eg ->
  mg_value (make_score mg eg) = mg.
Proof.
  intros Hmg Heg. unfold_score.
  Z.to_euclidean_division_equations. lia.
Qed.

Lemma eg_value_make_score mg eg :
  Int.in_signed 16 mg -> Int.in_signed 16 eg ->
  eg_value (make_score mg eg) = eg.
Proof.
  intros Hmg Heg. unfold_score.
  Z.to_euclidean_division_equations. lia.
Qed.

(** The packed value is [eg * 2^16 + mg]; the [int] addition wraps
    only when [eg] is the least 16-bit value and [mg] is negative. *)
Lemma make_score_exact mg eg :
  Int.in_signed 16 mg -> Int.in_signed 16 eg ->
  ~ (eg = -32768 /\ mg < 0) ->
  make_score mg eg = eg * 65536 + mg.
Proof.
  intros Hmg Heg Hc. unfold_score.
  Z.to_euclidean_division_equations. lia.
Qed.

(** C10. For middlegame and endgame values that fit a signed 16-bit
    integer, [mg_value] and [eg_value] give back the two values packed
    by [make_score]. *)
Theorem score_roundtrip (mg eg : Z) :
  Int.in_signed 16 mg -> Int.in_signed 16 eg ->
  mg_value (make_score mg eg) = mg /\ eg_value (make_score mg eg) = eg.
Proof.
  intros Hmg Heg. split.
  - apply mg_value_make_score; assumption.
  - apply eg_value_make_score; assumption.
Qed.

(** C9. [operator~] on [Color] computes [c ^ 3]: on [WHITE] (0) it
    gives 3, which no enumerator names, and on [BLACK] (1) it gives 2,
    the value of [COLOR_NB]; neither is the opposite colour. *)
Theorem Color_not_values :
  Color_not WHITE = 3 /\ Color_not BLACK = COLOR_NB /\
  Color_not WHITE <> BLACK /\ Color_not BLACK <> WHITE.
Proof.
  repeat split; try reflexivity; vm_compute; discriminate.
Qed.

Lemma is_ok_spec s :
  is_ok s = true <-> s = SQ_NONE \/ SQ_BEGIN <= s < SQ_END.
Proof.
  unfold is_ok. rewrite orb_true_iff, andb_true_iff, Z.eqb_eq, Z.leb_le, Z.ltb_lt.
  tauto.
Qed.

Lemma dirty_record_Some dp i :
  DirtyPiece_wf dp -> (i < DirtyPiece_extent)%nat ->
  exists pc f t,
    piece dp !! i = Some pc /\ from dp !! i = Some f /\ to dp !! i = Some t /\
    dirty_record dp i = Some (pc, f, t).
Proof.
  intros (Hp & _ & _ & Hf & Ht) Hi.
  destruct (lookup_lt_is_Some_2 (piece dp) i) as [pc Hpc]; [lia|].
  destruct (lookup_lt_is_Some_2 (from dp) i) as [f Hfi]; [lia|].
  destruct (lookup_lt_is_Some_2 (to dp) i) as [t Hti]; [lia|].
  exists pc, f, t. unfold dirty_record. rewrite Hpc, Hfi, Hti. auto.
Qed.

Lemma omap_length_le {A B} (f : A -> option B) (l : list A) :
  (length (omap f l) <= length l)%nat.
Proof.
  induction l as [|a l IH]; [reflexivity|].
  cbn [omap list_omap length]. destruct (f a); cbn [length]; lia.
Qed.

Lemma omap_all_None {A B} (f : A -> option B) (l : list A) :
  Forall (fun a => f a = None) l -> omap f l = [].
Proof.
  induction 1 as [|a l Ha _ IH]; [reflexivity|].
  cbn [omap list_omap]. rewrite Ha. exact IH.
Qed.

Lemma dirty_record_None dp i :
  (length (piece dp) <= i)%nat -> dirty_record dp i = None.
Proof.
  intros Hi. unfold dirty_record.
  rewrite (lookup_ge_None_2 (piece dp) i Hi). reflexivity.
Qed.

(** The records in use fit the arrays, whatever [dirty_num] says. *)
Lemma dirty_records_bounded dp :
  DirtyPiece_wf dp -> (length (dirty_records dp) <= DirtyPiece_extent)%nat.
Proof.
  intros (Hp & _). unfold dirty_records.
  set (n := Z.to_nat (dirty_num dp)).
  destruct (Nat.le_gt_cases n DirtyPiece_extent) as [Hn|Hn].
  - etransitivity; [apply omap_length_le|]. rewrite length_seq. exact Hn.
  - replace n with (DirtyPiece_extent + (n - DirtyPiece_extent))%nat by lia.
    rewrite seq_app, omap_app, length_app.
    rewrite (omap_all_None _ (seq (0 + DirtyPiece_extent) _)).
    + cbn [length].
      pose proof (omap_length_le (dirty_record dp) (seq 0 DirtyPiece_extent)) as Hle.
      rewrite length_seq in Hle. lia.
    + apply Forall_forall. intros i Hi. apply list_elem_of_In, in_seq in Hi.
      apply dirty_record_None. lia.
Qed.

(** C8. A [DirtyPiece] is a bounded list of piece-change records with
    room for 12 of them, which is at least 3; every slot [i] below the
    extent holds a record made of the piece [piece[i]], the source
    [from[i]] and the destination [to[i]]; the sentinel [SQ_NONE] is
    accepted by [is_ok] and is not a square of the board. *)
Theorem DirtyPiece_records (dp : DirtyPiece) (i : nat) :
  DirtyPiece_wf dp -> (i < DirtyPiece_extent)%nat ->
  (3 <= DirtyPiece_extent)%nat /\
  (length (dirty_records dp) <= DirtyPiece_extent)%nat /\
  (exists pc f t,
      piece dp !! i = Some pc /\ from dp !! i = Some f /\ to dp !! i = Some t /\
      dirty_record dp i = Some (pc, f, t)) /\
  is_ok SQ_NONE = true /\ on_board SQ_NONE = false.
Proof.
  intros Hwf Hi. split; [unfold DirtyPiece_extent; lia|].
  split; [apply dirty_records_bounded, Hwf|].
  split; [apply dirty_record_Some; assumption|].
  split; reflexivity.
Qed.

End TypesFacts.

Module ArchitectureFacts.
Import Architecture.

Example Network_stages :
  stages Network
  = [StInput 1024; StAffine 1024 16; StClip 16; StAffine 16 32; StClip 32;
     StAffine 32 1].
Proof. reflexivity. Qed.

(** C4, as stated. The second affine transform of [Network] is not to
    a width smaller than the intermediate width of the first, and the
    transforms of [Network] are not an affine transform, a clipped
    activation, a second affine transform and a final affine transform
    to one output, whatever the two widths. *)
Lemma Network_not_narrowing :
  (~ exists w1 w2 : nat,
       (w2 < w1)%nat /\ affine_widths Network = [w1; w2; 1%nat]) /\
  (~ exists w1 w2 : nat,
       transforms Network
       = narrowing_pipeline (TransformedFeatureDimensions * 2) w1 w2).
Proof.
  split.
  - intros (w1 & w2 & Hlt & H). vm_compute in H.
    injection H as <- <-. lia.
  - intros (w1 & w2 & H). vm_compute in H. discriminate H.
Qed.

(** C4, amended. [Network] applies, in this order, an affine transform
    to the intermediate width 16, a clipped activation, a second affine
    transform to the larger width 32, a second clipped activation, and
    a final affine transform to a single output value. *)
Theorem Network_pipeline :
  transforms Network
  = [StAffine 1024 16; StClip 16; StAffine 16 32; StClip 32; StAffine 32 1]
  /\ affine_widths Network = [16; 32; 1]%nat
  /\ OutputDimensions Network = 1%nat
  /\ forall (ops : LayerOps) (input : list Z),
      propagate ops Network input
      = affine ops 32 1
          (clip ops
             (affine ops 16 32
                (clip ops
                   (affine ops 1024 16
                      (take (TransformedFeatureDimensions * 2) input))))).
Proof.
  split; [reflexivity|]. split; [reflexivity|]. split; [reflexivity|].
  intros ops input. reflexivity.
Qed.

Lemma is_array_2 {A} (elem : A -> Prop) (l : list A) :
  is_array 2 elem l -> exists x y, l = [x; y] /\ elem x /\ elem y.
Proof.
  intros [Hlen Hall].
  destruct l as [|x [|y [|z l]]]; try discriminate Hlen.
  exists x, y. split; [reflexivity|].
  inversion Hall as [|? ? Hx Hall']; subst.
  inversion Hall' as [|? ? Hy _]; subst. auto.
Qed.

(** C5. An accumulator is made of exactly two vectors of
    [TransformedFeatureDimensions] = 512 signed 16-bit entries, one per
    perspective, two groups of [PSQTBuckets] = 8 signed 32-bit scalars,
    one per perspective, and two booleans [computed]. *)
Theorem Accumulator_shape (a : Accumulator) :
  Accumulator_wf a ->
  TransformedFeatureDimensions = 512%nat /\ PSQTBuckets = 8%nat /\
  exists v0 v1 s0 s1 (c0 c1 : bool),
    a = mkAccumulator [v0; v1] [s0; s1] [c0; c1] /\
    (length v0 = 512%nat /\ Forall (Int.in_signed 16) v0) /\
    (length v1 = 512%nat /\ Forall (Int.in_signed 16) v1) /\
    (length s0 = 8%nat /\ Forall (Int.in_signed 32) s0) /\
    (length s1 = 8%nat /\ Forall (Int.in_signed 32) s1).
Proof.
  intros (Hacc & Hpsqt & Hcomp).
  split; [reflexivity|]. split; [reflexivity|].
  destruct (is_array_2 _ _ Hacc) as (v0 & v1 & Ea & Hv0 & Hv1).
  destruct (is_array_2 _ _ Hpsqt) as (s0 & s1 & Ep & Hs0 & Hs1).
  destruct (is_array_2 _ _ Hcomp) as (c0 & c1 & Ec & _ & _).
  exists v0, v1, s0, s1, c0, c1.
  destruct a as [acc psqt comp]. cbn in Ea, Ep, Ec. subst.
  split; [reflexivity|]. auto.
Qed.

End ArchitectureFacts.

Module EvaluateNNUEFacts.
Import EvaluateNNUE.

Lemma HashValue_comm a b : HashValue a b = HashValue b a.
Proof. unfold HashValue. apply Z.lxor_comm. Qed.

Lemma lxor_in_unsigned w a b :
  0 <= w -> Int.in_unsigned w a -> Int.in_unsigned w b ->
  Int.in_unsigned w (Z.lxor a b).
Proof.
  unfold Int.in_unsigned. intros Hw [Ha0 Ha] [Hb0 Hb].
  assert (H0 : 0 <= Z.lxor a b) by (apply Z.lxor_nonneg; tauto).
  split; [assumption|].
  destruct (Z.eq_dec (Z.lxor a b) 0) as [->|Hne].
  { apply Z.pow_pos_nonneg; lia. }
  assert (Hw' : 0 < w).
  { destruct (Z.eq_dec w 0) as [->|]; [|lia].
    change (2 ^ 0) with 1 in *.
    assert (a = 0) by lia. assert (b = 0) by lia. subst. contradiction Hne.
    reflexivity. }
  apply Z.log2_lt_pow2; [lia|].
  eapply Z.le_lt_trans; [apply Z.log2_lxor; assumption|].
  apply Z.max_lub_lt.
  - destruct (Z.eq_dec a 0) as [->|]; [simpl; lia|]. apply Z.log2_lt_pow2; lia.
  - destruct (Z.eq_dec b 0) as [->|]; [simpl; lia|]. apply Z.log2_lt_pow2; lia.
Qed.

(** C2, as stated. No pair of component hashes is combined differently
    after swapping the two operands. *)
Lemma HashValue_no_asymmetric_pair :
  ~ exists a b : Z, a <> b /\ HashValue a b <> HashValue b a.
Proof.
  intros (a & b & _ & H). apply H, HashValue_comm.
Qed.

(** C2, amended. [HashValue] is the bitwise exclusive or of the two
    32-bit component hashes: a 32-bit value, not their concatenation,
    and the same value when the two operands are swapped. *)
Theorem HashValue_is_symmetric_xor (a b : Z) :
  Int.in_unsigned 32 a -> Int.in_unsigned 32 b ->
  HashValue a b = Z.lxor a b /\
  Int.in_unsigned 32 (HashValue a b) /\
  HashValue a b = HashValue b a.
Proof.
  intros Ha Hb. split; [reflexivity|]. split.
  - apply lxor_in_unsigned; [lia | assumption | assumption].
  - apply HashValue_comm.
Qed.

Lemma release_null d m :
  release (mk_unique_ptr d None) m = inr (mk_unique_ptr d None, m).
Proof. reflexivity. Qed.

Lemma deleter_run (s : Strategy) (ev : Z -> Event) (p : Z) (m : Memory) :
  heap m !! p = Some (mkBlock s true) ->
  (destructor p ;;; free_of s ev p) m
  = inr (tt, mkMemory (delete p (heap m)) (trace m ++ [EvDestructor p; ev p])).
Proof.
  intros Hp. unfold bind, destructor. rewrite Hp.
  unfold free_of. cbn [heap trace]. rewrite lookup_insert_eq. cbn [strategy].
  assert (Hs : Strategy_eqb s s = true) by (destruct s; reflexivity).
  rewrite Hs, delete_insert_eq, <- app_assoc. reflexivity.
Qed.

(** Whatever the heap, a release that succeeds has run the destructor
    and then the deallocator of the handle's own deleter, and nothing
    else. *)
Lemma release_trace (u : unique_ptr) (p : Z) (m m' : Memory) (u' : unique_ptr) :
  get u = Some p ->
  release u m = inr (u', m') ->
  u' = mk_unique_ptr (deleter_type u) None /\
  trace m' = trace m ++
    [EvDestructor p;
     match deleter_type u with
     | AlignedDeleter_t => EvStdAlignedFree p
     | LargePageDeleter_t => EvLargePagesFree p
     end].
Proof.
  intros Hget Hrel. unfold release in Hrel. rewrite Hget in Hrel.
  unfold get_deleter, AlignedDeleter, LargePageDeleter, std_aligned_free,
    aligned_large_pages_free, bind, destructor, free_of, ret in Hrel.
  destruct (deleter_type u);
    destruct (heap m !! p) as [[s []]|]; try discriminate Hrel;
    cbn [heap trace] in Hrel; rewrite lookup_insert_eq in Hrel;
    cbn [strategy] in Hrel;
    destruct s; try discriminate Hrel; cbn [Strategy_eqb] in Hrel;
    injection Hrel as <- <-; cbn [trace]; rewrite <- app_assoc; auto.
Qed.

(** A deallocator refuses a buffer of the other strategy. *)
Example AlignedDeleter_on_large_pages :
  AlignedDeleter 64 (mkMemory {[ 64 := mkBlock LargePages true ]} [])
  = inl MismatchedFree.
Proof. reflexivity. Qed.

(** C7. A live buffer from the large-page allocator held by a
    [LargePagePtr] is released by one run of the destructor followed by
    [aligned_large_pages_free], and a live buffer from the aligned
    allocator held by an [AlignedPtr] by one run of the destructor
    followed by [std_aligned_free]; the buffer leaves the heap, the
    handle is left null, and releasing the null handle again does
    nothing. *)
Theorem release_matches_allocation (m : Memory) (p q : Z) :
  heap m !! p = Some (mkBlock LargePages true) ->
  heap m !! q = Some (mkBlock StdAligned true) ->
  let large := mkMemory (delete p (heap m))
                 (trace m ++ [EvDestructor p; EvLargePagesFree p]) in
  let aligned := mkMemory (delete q (heap m))
                   (trace m ++ [EvDestructor q; EvStdAlignedFree q]) in
  release (LargePagePtr p) m = inr (mk_unique_ptr LargePageDeleter_t None, large) /\
  release (AlignedPtr q) m = inr (mk_unique_ptr AlignedDeleter_t None, aligned) /\
  release (mk_unique_ptr LargePageDeleter_t None) large
  = inr (mk_unique_ptr LargePageDeleter_t None, large) /\
  release (mk_unique_ptr AlignedDeleter_t None) aligned
  = inr (mk_unique_ptr AlignedDeleter_t None, aligned) /\
  frees_of p [EvDestructor p; EvLargePagesFree p] = [EvLargePagesFree p] /\
  frees_of q [EvDestructor q; EvStdAlignedFree q] = [EvStdAlignedFree q] /\
  destructions_of p [EvDestructor p; EvLargePagesFree p] = [EvDestructor p] /\
  destructions_of q [EvDestructor q; EvStdAlignedFree q] = [EvDestructor q].
Proof.
  intros Hp Hq large aligned.
  split; [|split].
  - unfold release, LargePagePtr, get_deleter. cbn [get deleter_type].
    unfold LargePageDeleter, aligned_large_pages_free.
    unfold bind at 1. rewrite (deleter_run _ _ _ _ Hp). reflexivity.
  - unfold release, AlignedPtr, get_deleter. cbn [get deleter_type].
    unfold AlignedDeleter, std_aligned_free.
    unfold bind at 1. rewrite (deleter_run _ _ _ _ Hq). reflexivity.
  - split; [reflexivity|]. split; [reflexivity|].
    unfold frees_of, destructions_of.
    repeat split; cbn [filter list_filter];
      repeat (match goal with |- context [decide ?P] => destruct (decide P) end);
      first [reflexivity | exfalso; intuition congruence].
Qed.

End EvaluateNNUEFacts.

Module FeatureTransformerFacts.
Import Types Architecture FeatureTransformer.


Lemma saturate_range w z : 0 < w -> Int.in_signed w (Int.saturate_signed w z).
Proof.
  intros Hw. unfold Int.saturate_signed, Int.in_signed.
  assert (0 < 2 ^ (w - 1)) by (apply Z.pow_pos_nonneg; lia). lia.
Qed.

Lemma row_sum_app rows l1 l2 j :
  row_sum rows (l1 ++ l2) j = row_sum rows l1 j + row_sum rows l2 j.
Proof.
  unfold row_sum. induction l1 as [|i l1 IH]; cbn [app fold_right]; lia.
Qed.








Section Rows.
Variable w : Z.
Variable n : nat.
Variable bias : nat -> Z.
Variable rows : nat -> nat -> Z.









End Rows.

(** *** The checks of the delta *)

Lemma remove_feature_Permutation x l l' :
  remove_feature x l = Some l' -> l ≡ₚ x :: l'.
Proof.
  revert l'. induction l as [|y l IH]; intros l' H; [discriminate H|].
  cbn [remove_feature] in H. destruct (decide (x = y)) as [->|Hne].
  - injection H as <-. reflexivity.
  - destruct (remove_feature x l) as [rest|]; [|discriminate H].
    cbn [mbind option_bind] in H. injection H as <-.
    rewrite (IH rest eq_refl). apply Permutation_swap.
Qed.









(** The arithmetic keeps every entry in the range of its width. *)
Lemma store_length w n src : length (store w n src) = n.
Proof. unfold store. rewrite length_map. apply length_seq. Qed.

Lemma store_range w n src :
  0 < w -> Forall (Int.in_signed w) (store w n src).
Proof.
  intros Hw. unfold store. apply Forall_map, Forall_forall. intros j _.
  apply saturate_range, Hw.
Qed.

Lemma imap_saturate_range w (f : nat -> Z -> Z) acc :
  0 < w ->
  Forall (Int.in_signed w) (imap (fun j a => Int.saturate_signed w (f j a)) acc).
Proof.
  intros Hw. apply Forall_lookup. intros j x Hx.
  rewrite list_lookup_imap in Hx.
  destruct (acc !! j) as [a|]; [|discriminate Hx].
  injection Hx as <-. apply saturate_range, Hw.
Qed.

Lemma add_rows_length w rows acc l :
  length (add_rows w rows acc l) = length acc.
Proof.
  unfold add_rows. revert acc. induction l as [|i l IH]; intros acc.
  - reflexivity.
  - cbn [fold_left]. rewrite IH. apply length_imap.
Qed.

Lemma sub_rows_length w rows acc l :
  length (sub_rows w rows acc l) = length acc.
Proof.
  unfold sub_rows. revert acc. induction l as [|i l IH]; intros acc.
  - reflexivity.
  - cbn [fold_left]. rewrite IH. apply length_imap.
Qed.

Lemma add_rows_range w rows acc l :
  0 < w -> Forall (Int.in_signed w) acc ->
  Forall (Int.in_signed w) (add_rows w rows acc l).
Proof.
  intros Hw. unfold add_rows. revert acc.
  induction l as [|i l IH]; intros acc Hacc.
  - exact Hacc.
  - cbn [fold_left]. apply IH. unfold add_row.
    apply (imap_saturate_range w (fun j a => a + rows i j)), Hw.
Qed.

Lemma sub_rows_range w rows acc l :
  0 < w -> Forall (Int.in_signed w) acc ->
  Forall (Int.in_signed w) (sub_rows w rows acc l).
Proof.
  intros Hw. unfold sub_rows. revert acc.
  induction l as [|i l IH]; intros acc Hacc.
  - exact Hacc.
  - cbn [fold_left]. apply IH. unfold sub_row.
    apply (imap_saturate_range w (fun j a => a - rows i j)), Hw.
Qed.

Lemma add_rows_array w rows n acc l :
  0 < w -> is_array n (Int.in_signed w) acc ->
  is_array n (Int.in_signed w) (add_rows w rows acc l).
Proof.
  intros Hw [Hlen Hall]. split.
  - rewrite add_rows_length. exact Hlen.
  - apply add_rows_range; assumption.
Qed.

Lemma sub_rows_array w rows n acc l :
  0 < w -> is_array n (Int.in_signed w) acc ->
  is_array n (Int.in_signed w) (sub_rows w rows acc l).
Proof.
  intros Hw [Hlen Hall]. split.
  - rewrite sub_rows_length. exact Hlen.
  - apply sub_rows_range; assumption.
Qed.

Lemma store_array w n src : 0 < w -> is_array n (Int.in_signed w) (store w n src).
Proof.
  intros Hw. split; [apply store_length | apply store_range, Hw].
Qed.

Lemma is_array_pair {A} (elem : A -> Prop) x y :
  elem x -> elem y -> is_array 2 elem [x; y].
Proof.
  intros Hx Hy. split; [reflexivity|]. repeat constructor; assumption.
Qed.

(** A full refresh fills an accumulator of the declared shape. *)
Lemma refresh_wf P b : Accumulator_wf (refresh P b).
Proof.
  unfold Accumulator_wf, refresh, perspectives.
  cbn [accumulation psqtAccumulation computed map].
  split; [|split].
  - apply is_array_pair; apply add_rows_array, store_array; lia.
  - apply is_array_pair; apply add_rows_array, store_array; lia.
  - apply is_array_pair; exact I.
Qed.

(** The incremental update keeps the declared shape. *)
Lemma update_wf P b dp a a' :
  Accumulator_wf a -> update P b dp a = inr a' -> Accumulator_wf a'.
Proof.
  intros (Hacc & Hpsqt & _) Hu.
  destruct (ArchitectureFacts.is_array_2 _ _ Hacc) as (v0 & v1 & Ea & A0 & A1).
  destruct (ArchitectureFacts.is_array_2 _ _ Hpsqt) as (s0 & s1 & Ep & S0 & S1).
  unfold update in Hu. rewrite Ea, Ep in Hu.
  destruct (computed a) as [|[] [|[] [|? ?]]]; try discriminate Hu.
  destruct (forallb _ perspectives); [|discriminate Hu].
  injection Hu as <-.
  unfold Accumulator_wf, perspectives.
  cbn [accumulation psqtAccumulation computed map zip_with].
  split; [|split].
  - apply is_array_pair; apply add_rows_array, sub_rows_array; (lia || assumption).
  - apply is_array_pair; apply add_rows_array, sub_rows_array; (lia || assumption).
  - apply is_array_pair; exact I.
Qed.

(** A delta that turns off a feature that is not active is refused. *)
Lemma update_inactive_removal P b dp parent c :
  c ∈ perspectives ->
  ~ removed_features P c dp ⊆+ active_features P c b ->
  update P b dp parent = inl InternalConsistency.
Proof.
  intros Hin Hnot. unfold update.
  destruct (computed parent) as [|[] [|[] [|? ?]]]; try reflexivity.
  destruct (forallb _ perspectives) eqn:E; [|reflexivity].
  exfalso. apply Hnot.
  rewrite forallb_forall in E.
  specialize (E c (proj1 (list_elem_of_In _ _) Hin)).
  unfold delta_applies in E.
  destruct (remove_features (active_features P c b) (removed_features P c dp))
    as [kept|] eqn:R; [|discriminate E].
  clear E. revert R. generalize (active_features P c b) as active.
  generalize (removed_features P c dp) as removed.
  induction removed as [|x removed IH]; intros active R.
  - apply submseteq_nil_l.
  - cbn [remove_features] in R.
    destruct (remove_feature x active) as [active'|] eqn:Rx; [|discriminate R].
    cbn [mbind option_bind] in R.
    rewrite (remove_feature_Permutation _ _ _ Rx).
    apply submseteq_skip, (IH _ R).
Qed.


End FeatureTransformerFacts.

Module WeightStoreFacts.
Import WeightStore.

Lemma read_enough n r :
  (n <= length (input r))%nat ->
  read n r = (inr (take n (input r)),
              mkReader (drop n (input r)) (bytes_read r + n) (allocated r)).
Proof.
  intros Hn. unfold read.
  destruct (Nat.ltb_spec (length (input r)) n) as [Hlt|_]; [lia|reflexivity].
Qed.

Lemma load_mismatch decode compiled_hash required (source : list Byte.byte) :
  (hash_field_bytes <= length source)%nat ->
  decode (take hash_field_bytes source) <> compiled_hash ->
  load decode compiled_hash required (open_source source)
  = (inl IncompatibleTopology,
     mkReader (drop hash_field_bytes source) hash_field_bytes []).
Proof.
  intros Hlen Hne. unfold load, lbind.
  rewrite read_enough by exact Hlen.
  cbn [open_source input bytes_read allocated].
  destruct (Z.eqb_spec (decode (take hash_field_bytes source)) compiled_hash)
    as [Heq|_]; [contradiction|].
  reflexivity.
Qed.

(** C3. A source made of a header whose hash is not the compiled one,
    followed by any parameter bytes, is rejected with
    [IncompatibleTopology]: no blob is returned, only the hash field
    has been read, the parameter bytes are left unread and no buffer
    has been allocated. *)
Theorem load_rejects_mismatched_hash (decode : list Byte.byte -> Z)
    (compiled_hash : Z) (required : nat) (header params : list Byte.byte) :
  length header = hash_field_bytes ->
  decode header <> compiled_hash ->
  load decode compiled_hash required (open_source (header ++ params))
  = (inl IncompatibleTopology, mkReader params hash_field_bytes []).
Proof.
  intros Hlen Hne.
  rewrite load_mismatch.
  - rewrite <- Hlen, drop_app_length. reflexivity.
  - rewrite length_app. lia.
  - rewrite <- Hlen, take_app_length. exact Hne.
Qed.

End WeightStoreFacts.

Module MainFacts.
Import Main.

Example first_call_Threads_set :
  first_call (Threads_set Options_Threads) main = Some 11%nat.
Proof. reflexivity. Qed.

Example first_call_Eval_NNUE_init : first_call Eval_NNUE_init main = Some 13%nat.
Proof. reflexivity. Qed.

(** C6, as stated. In [main] the initialisation of the evaluator does
    not come before the start of the worker threads. *)
Lemma NNUE_init_not_before_threads :
  precedes Eval_NNUE_init (Threads_set Options_Threads) main <> true.
Proof. vm_compute. discriminate. Qed.

(** The order of the calls of [main] around the initialisation. *)
Lemma main_call_order :
  calls Eval_NNUE_init main = 1%nat /\
  precedes (Threads_set Options_Threads) Eval_NNUE_init main = true /\
  precedes Eval_NNUE_init UCI_loop main = true /\
  calls Eval_NNUE_init (calls_after Eval_NNUE_init main) = 0%nat.
Proof. repeat split; vm_compute; reflexivity. Qed.

Lemma states_from_init_main blob evals :
  states_from_init blob evals start main
  = let p := mkProcess true (Some blob) 1 [true] 0 0 in
    let q := mkProcess true (Some blob) 1 [true] evals 0 in
    let r := mkProcess false (Some blob) 1 [true] evals 0 in
    [p; q; r; r; r; r].
Proof.
  unfold states_from_init.
  change (first_call Eval_NNUE_init main) with (Some 13%nat).
  reflexivity.
Qed.

(** C6, amended. The Weight Store is initialised exactly once; the
    initialisation takes place after the worker threads have been
    started by [Threads.set(Options["Threads"])] and before the command
    loop, none of whose evaluations reads an empty store; after the
    initialisation the store holds the same blob for the remainder of
    the process. *)
Theorem weight_store_lifecycle (blob : list Byte.byte) (evals : nat) :
  let final := run blob evals start main in
  store_writes final = 1%nat /\
  init_saw_workers final = [true] /\
  precedes Eval_NNUE_init UCI_loop main = true /\
  reads final = evals /\ reads_before_init final = 0%nat /\
  Forall (fun p => store p = Some blob /\ store_writes p = 1%nat)
    (states_from_init blob evals start main) /\
  length (states_from_init blob evals start main)
  = S (length (calls_after Eval_NNUE_init main)).
Proof.
  cbv zeta. rewrite states_from_init_main. cbv zeta.
  assert (R : run blob evals start main
              = mkProcess false (Some blob) 1 [true] evals 0).
  { reflexivity. }
  rewrite R. cbn [store_writes init_saw_workers reads reads_before_init].
  repeat split; try reflexivity.
  repeat (apply Forall_cons_2; [split; reflexivity|]). apply Forall_nil_2.
Qed.

End MainFacts.

(** * Further properties of [types.h] *)

Module TypesOpsFacts.
Import Types.

Lemma land_shifted_ones m :
  Z.land m (Z.shiftl (Z.ones 5) 8)
  = Z.shiftl (Z.land (Z.shiftr m 8) (Z.ones 5)) 8.
Proof.
  apply Z.bits_inj'. intros n Hn. rewrite Z.land_spec.
  destruct (Z.lt_ge_cases n 8) as [Hlt|Hge].
  - rewrite !Z.shiftl_spec_low by lia. apply andb_false_r.
  - rewrite !Z.shiftl_spec by lia. rewrite Z.land_spec, Z.shiftr_spec by lia.
    replace (n - 8 + 8) with n by lia. reflexivity.
Qed.

Lemma land_7936 m : 0 <= m -> Z.land m 7936 = ((m / 256) mod 32) * 256.
Proof.
  intros Hm. change 7936 with (Z.shiftl (Z.ones 5) 8).
  rewrite land_shifted_ones, Z.land_ones, Z.shiftr_div_pow2, Z.shiftl_mul_pow2
    by lia.
  reflexivity.
Qed.

Lemma land_255 m : Z.land m 255 = m mod 256.
Proof. change 255 with (Z.ones 8). rewrite Z.land_ones by lia. reflexivity. Qed.

Ltac unfold_int :=
  unfold Int.add, Int.sub, Int.neg, Int.mul, Int.shl, Int.to_int, Int.to_uint8,
    Int.to_uint64, Int.wrap_signed, Int.wrap_unsigned, Int.in_signed in *;
  rewrite ?Z.shiftl_mul_pow2, ?Z.shiftr_div_pow2 by lia;
  change (2 ^ 64) with 18446744073709551616 in *;
  change (2 ^ 32) with 4294967296 in *;
  change (2 ^ (32 - 1)) with 2147483648 in *;
  change (2 ^ 16) with 65536 in *;
  change (2 ^ (16 - 1)) with 32768 in *;
  change (2 ^ 8) with 256 in *;
  change (2 ^ 4) with 16 in *;
  change (2 ^ 3) with 8 in *.

(** The packed move is [from * 256 + to] as long as the source square
    stays below 2^23. *)
Lemma make_move_exact f t :
  0 <= f < 8388608 -> 0 <= t < 256 -> make_move f t = f * 256 + t.
Proof.
  intros Hf Ht. unfold make_move. unfold_int.
  Z.to_euclidean_division_equations. lia.
Qed.

Lemma squares_of_make_move f t :
  0 <= f < 8388608 -> 0 <= t < 256 ->
  from_sq (make_move f t) = f /\ to_sq (make_move f t) = t.
Proof.
  intros Hf Ht. rewrite make_move_exact by assumption.
  unfold from_sq, to_sq.
  destruct (Z.ltb_spec (f * 256 + t) 0) as [Hneg|_]; [lia|].
  rewrite land_255, Z.shiftr_div_pow2 by lia. change (2 ^ 8) with 256.
  split; Z.to_euclidean_division_equations; lia.
Qed.

(** X1. [from_sq] and [to_sq] give back the two squares packed by
    [make_move], for a destination below 256 and a source below 2^23. *)
Theorem make_move_roundtrip (f t : Square) :
  0 <= f < 8388608 -> 0 <= t < 256 ->
  from_sq (make_move f t) = f /\ to_sq (make_move f t) = t.
Proof. apply squares_of_make_move. Qed.

Lemma make_move_roundtrip_witness :
  0 <= 9 < 8388608 /\ 0 <= 17 < 256 /\
  from_sq (make_move 9 17) = 9 /\ to_sq (make_move 9 17) = 17.
Proof.
  assert (H1 : 0 <= 9 < 8388608) by lia.
  assert (H2 : 0 <= 17 < 256) by lia.
  split; [exact H1 | split; [exact H2 | exact (make_move_roundtrip 9 17 H1 H2)]].
Defined.

(** X2. The negation of a positive move is classified as a removal and
    keeps the source and destination squares of the move. *)
Theorem negated_move_is_removal (m : Move) :
  0 < m < 2147483648 ->
  type_of_Move (Int.neg m) = MOVETYPE_REMOVE /\
  to_sq (Int.neg m) = to_sq m /\
  from_sq (Int.neg m) = from_sq m.
Proof.
  intros Hm.
  assert (Hneg : Int.neg m = - m).
  { unfold_int. Z.to_euclidean_division_equations. lia. }
  assert (Hback : Int.neg (- m) = m).
  { unfold_int. Z.to_euclidean_division_equations. lia. }
  rewrite Hneg. unfold type_of_Move, to_sq, from_sq.
  destruct (Z.ltb_spec (- m) 0) as [_|Hge]; [|lia].
  destruct (Z.ltb_spec m 0) as [Hlt|_]; [lia|].
  rewrite Hback. auto.
Qed.

Lemma negated_move_is_removal_witness :
  0 < 17 < 2147483648 /\
  type_of_Move (Int.neg 17) = MOVETYPE_REMOVE /\
  to_sq (Int.neg 17) = to_sq 17 /\
  from_sq (Int.neg 17) = from_sq 17.
Proof.
  assert (H : 0 < 17 < 2147483648) by lia.
  split; [exact H | exact (negated_move_is_removal 17 H)].
Defined.

(** X3. A move packed from a source square below [SQUARE_EXT_NB] is
    classified as a placement exactly when the source is [SQ_NONE] or
    the square 32, whose five low bits are zero, and as a move of a
    piece otherwise. *)
Theorem type_of_make_move (f t : Square) :
  0 <= f < SQUARE_EXT_NB -> 0 <= t < 256 ->
  type_of_Move (make_move f t)
  = if (f =? SQ_NONE) || (f =? 32) then MOVETYPE_PLACE else MOVETYPE_MOVE.
Proof.
  unfold SQUARE_EXT_NB, SQ_NONE. intros Hf Ht.
  rewrite make_move_exact by lia. unfold type_of_Move.
  destruct (Z.ltb_spec (f * 256 + t) 0) as [Hneg|_]; [lia|].
  rewrite land_7936 by lia.
  replace ((f * 256 + t) / 256) with f
    by (Z.to_euclidean_division_equations; lia).
  destruct (Z.eqb_spec f 0) as [->|Hf0]; [reflexivity|].
  destruct (Z.eqb_spec f 32) as [->|Hf32]; [reflexivity|].
  cbn [orb].
  destruct (Z.eqb_spec (f mod 32 * 256) 0) as [H0|_]; [|reflexivity].
  exfalso. revert H0. Z.to_euclidean_division_equations. lia.
Qed.

Lemma type_of_make_move_witness :
  0 <= 9 < SQUARE_EXT_NB /\ 0 <= 17 < 256 /\
  type_of_Move (make_move 9 17) = MOVETYPE_MOVE.
Proof.
  assert (H1 : 0 <= 9 < SQUARE_EXT_NB) by (unfold SQUARE_EXT_NB; lia).
  assert (H2 : 0 <= 17 < 256) by lia.
  split; [exact H1 | split; [exact H2 | exact (type_of_make_move 9 17 H1 H2)]].
Defined.

(** X4. Reversing a move packed from two squares below 256 packs the
    two squares in the other order, and reversing twice gives the
    move back. *)
Theorem reverse_move_swaps (f t : Square) :
  0 <= f < 256 -> 0 <= t < 256 ->
  reverse_move (make_move f t) = make_move t f /\
  reverse_move (reverse_move (make_move f t)) = make_move f t.
Proof.
  intros Hf Ht.
  assert (R : forall a b, 0 <= a < 256 -> 0 <= b < 256 ->
                          reverse_move (make_move a b) = make_move b a).
  { intros a b Ha Hb. unfold reverse_move.
    destruct (squares_of_make_move a b) as [-> ->]; [lia | lia | reflexivity]. }
  split; [apply R; assumption|].
  rewrite R by assumption. apply R; assumption.
Qed.

Lemma reverse_move_swaps_witness :
  0 <= 9 < 256 /\ 0 <= 17 < 256 /\
  reverse_move (make_move 9 17) = make_move 17 9 /\
  reverse_move (reverse_move (make_move 9 17)) = make_move 9 17.
Proof.
  assert (H1 : 0 <= 9 < 256) by lia.
  assert (H2 : 0 <= 17 < 256) by lia.
  split; [exact H1 | split; [exact H2 | exact (reverse_move_swaps 9 17 H1 H2)]].
Defined.

(** Reversing a removal gives a move that is not a removal. *)
Example reverse_move_of_removal :
  reverse_move (Int.neg (make_move 9 17)) = make_move 17 9.
Proof. reflexivity. Qed.

Lemma is_ok_make_move f t :
  0 <= f < 256 -> 0 <= t < 256 ->
  is_ok_Move (make_move f t) = negb (f =? t).
Proof.
  intros Hf Ht. unfold is_ok_Move.
  destruct (squares_of_make_move f t) as [-> ->]; [lia | lia | reflexivity].
Qed.

(** X5. [is_ok] accepts a move packed from two squares below 256
    exactly when the two squares differ; it rejects [MOVE_NONE], and it
    accepts [MOVE_NULL], whose value 65 unpacks to the source 0 and the
    destination 65. *)
Theorem is_ok_Move_spec (f t : Square) :
  0 <= f < 256 -> 0 <= t < 256 ->
  (is_ok_Move (make_move f t) = true <-> f <> t) /\
  is_ok_Move MOVE_NONE = false /\
  is_ok_Move MOVE_NULL = true.
Proof.
  intros Hf Ht. split; [|split; reflexivity].
  rewrite is_ok_make_move by assumption.
  destruct (Z.eqb_spec f t) as [->|Hne]; cbn [negb]; split; congruence.
Qed.

Lemma is_ok_Move_spec_witness :
  0 <= 9 < 256 /\ 0 <= 17 < 256 /\
  (is_ok_Move (make_move 9 17) = true <-> 9 <> 17).
Proof.
  assert (H1 : 0 <= 9 < 256) by lia.
  assert (H2 : 0 <= 17 < 256) by lia.
  split; [exact H1 | split; [exact H2|]].
  exact (proj1 (is_ok_Move_spec 9 17 H1 H2)).
Defined.

Lemma make_square_of_file_rank_aux s :
  Int.in_signed 32 s -> make_square (file_of s) (rank_of s) = s.
Proof.
  intros Hs. unfold make_square, file_of, rank_of.
  change 7 with (Z.ones 3). rewrite Z.land_ones by lia.
  unfold_int. Z.to_euclidean_division_equations. lia.
Qed.

(** X6. Every square is the square made of its own file and rank. *)
Theorem make_square_of_file_rank (s : Square) :
  Int.in_signed 32 s -> make_square (file_of s) (rank_of s) = s.
Proof. apply make_square_of_file_rank_aux. Qed.

Lemma make_square_of_file_rank_witness :
  Int.in_signed 32 19 /\ make_square (file_of 19) (rank_of 19) = 19.
Proof.
  assert (H : Int.in_signed 32 19) by (unfold Int.in_signed; simpl; lia).
  split; [exact H | exact (make_square_of_file_rank 19 H)].
Defined.

Lemma make_square_exact f r :
  0 <= f < 134217728 -> 1 <= r <= 8 -> make_square f r = f * 8 + r - 1.
Proof.
  intros Hf Hr. unfold make_square. unfold_int.
  Z.to_euclidean_division_equations. lia.
Qed.

(** X7. [file_of] and [rank_of] give back the file and the rank given
    to [make_square], for a rank from 1 to 8 and a file from 0 up to
    2^27. *)
Theorem file_rank_of_make_square (f : File) (r : Rank) :
  0 <= f < 134217728 -> 1 <= r <= 8 ->
  file_of (make_square f r) = f /\ rank_of (make_square f r) = r.
Proof.
  intros Hf Hr. rewrite make_square_exact by assumption.
  unfold file_of, rank_of.
  change 7 with (Z.ones 3). rewrite Z.land_ones by lia.
  unfold_int. split; Z.to_euclidean_division_equations; lia.
Qed.

Lemma file_rank_of_make_square_witness :
  0 <= 2 < 134217728 /\ 1 <= 4 <= 8 /\
  file_of (make_square 2 4) = 2 /\ rank_of (make_square 2 4) = 4.
Proof.
  assert (H1 : 0 <= 2 < 134217728) by lia.
  assert (H2 : 1 <= 4 <= 8) by lia.
  split; [exact H1 | split; [exact H2 | exact (file_rank_of_make_square 2 4 H1 H2)]].
Defined.

(** The rank 0, the value of the enumerator [RANK_1], falls on the
    last square of the file before. *)
Example make_square_rank_0 :
  make_square 2 0 = 15 /\ file_of (make_square 2 0) = 1 /\
  rank_of (make_square 2 0) = 8.
Proof. repeat split. Qed.

(** X8. [is_ok] accepts a square exactly when it is [SQ_NONE] or the
    square made of a file from 1 to 3 and a rank from 1 to 8: the
    squares from [SQ_BEGIN] up to [SQ_END], [SQUARE_NB] in number. *)
Theorem is_ok_iff_make_square (s : Square) :
  (is_ok s = true <->
   s = SQ_NONE \/
   exists f r, 1 <= f <= 3 /\ 1 <= r <= 8 /\ s = make_square f r) /\
  SQ_END - SQ_BEGIN = SQUARE_NB.
Proof.
  split; [|reflexivity].
  rewrite TypesFacts.is_ok_spec. unfold SQ_BEGIN, SQ_END.
  split; (intros [H0|H]; [left; exact H0 | right]).
  - exists (file_of s), (rank_of s).
    assert (Hs : Int.in_signed 32 s) by (unfold Int.in_signed; simpl; lia).
    rewrite (make_square_of_file_rank_aux s Hs).
    unfold file_of, rank_of.
    change 7 with (Z.ones 3). rewrite Z.land_ones by lia.
    unfold_int. repeat split; Z.to_euclidean_division_equations; lia.
  - destruct H as (f & r & Hf & Hr & ->). rewrite make_square_exact by lia. lia.
Qed.

Lemma color_of_make_piece c :
  0 <= c < 16 ->
  make_piece c = c * 16 /\
  color_of (make_piece c) = if c =? 0 then None else Some c.
Proof.
  intros Hc.
  assert (E : make_piece c = c * 16).
  { unfold make_piece. unfold_int. Z.to_euclidean_division_equations. lia. }
  split; [exact E|]. rewrite E. unfold color_of, NO_PIECE.
  destruct (Z.eqb_spec c 0) as [->|Hc0]; [reflexivity|].
  destruct (Z.eqb_spec (c * 16) 0) as [H0|_]; [lia|].
  f_equal. rewrite Z.shiftr_div_pow2 by lia. change (2 ^ 4) with 16.
  Z.to_euclidean_division_equations. lia.
Qed.

(** X9. [color_of] gives back the colour given to [make_piece] for the
    values 1 to 15; for the colour value 0, the enumerator [WHITE],
    [make_piece] gives [NO_PIECE] and [color_of] fails its assertion. *)
Theorem color_of_make_piece_roundtrip (c : Color) :
  0 <= c < 16 ->
  color_of (make_piece c) = (if c =? WHITE then None else Some c) /\
  make_piece WHITE = NO_PIECE.
Proof.
  intros Hc. split; [apply color_of_make_piece, Hc | reflexivity].
Qed.

Lemma color_of_make_piece_roundtrip_witness :
  0 <= 1 < 16 /\ color_of (make_piece 1) = Some 1.
Proof.
  assert (H : 0 <= 1 < 16) by lia.
  split; [exact H | exact (proj1 (color_of_make_piece_roundtrip 1 H))].
Defined.

Lemma type_of_Piece_ranges pc :
  0 < pc < 256 ->
  type_of_Piece pc
  = Some (if pc =? BAN_PIECE then BAN
          else if pc <? 16 then WHITE_PIECE
          else if pc <? 32 then BLACK_PIECE
          else NO_PIECE_TYPE).
Proof.
  intros Hpc. unfold type_of_Piece, color_of, NO_PIECE, WHITE, BLACK.
  destruct (Z.eqb_spec pc BAN_PIECE) as [_|Hban]; [reflexivity|].
  destruct (Z.eqb_spec pc 0) as [H0|_]; [lia|].
  cbn [mbind option_bind].
  rewrite Z.shiftr_div_pow2 by lia. change (2 ^ 4) with 16.
  destruct (Z.ltb_spec pc 16) as [H16|H16].
  - replace (pc / 16) with 0 by (Z.to_euclidean_division_equations; lia).
    reflexivity.
  - destruct (Z.ltb_spec pc 32) as [H32|H32].
    + replace (pc / 16) with 1 by (Z.to_euclidean_division_equations; lia).
      reflexivity.
    + destruct (Z.eqb_spec (pc / 16) 0) as [E|_];
        [exfalso; revert E; Z.to_euclidean_division_equations; lia|].
      destruct (Z.eqb_spec (pc / 16) 1) as [E|_];
        [exfalso; revert E; Z.to_euclidean_division_equations; lia|].
      reflexivity.
Qed.

(** X10. The type of the piece made for a colour and a coloured piece
    type follows the colour value alone and is never [WHITE_PIECE]: it
    is [BLACK_PIECE] for the colour value 1 and [NO_PIECE_TYPE] for
    the values 2 to 15, and for the value 0 the assertion of
    [color_of] fails; a piece made with the type [BAN] has the type
    [BAN]. *)
Theorem type_of_make_piece (c : Color) (pt : PieceType) :
  0 <= c < 16 ->
  pt = WHITE_PIECE \/ pt = BLACK_PIECE ->
  type_of_Piece (make_piece_of_type c pt)
  = (if c =? 0 then None
     else if c =? 1 then Some BLACK_PIECE else Some NO_PIECE_TYPE) /\
  type_of_Piece (make_piece_of_type c BAN) = Some BAN.
Proof.
  intros Hc Hpt. split; [|reflexivity].
  assert (E : make_piece_of_type c pt = c * 16).
  { unfold make_piece_of_type.
    destruct Hpt as [-> | ->]; cbn [Z.eqb orb];
      apply (color_of_make_piece c Hc). }
  rewrite E.
  destruct (Z.eqb_spec c 0) as [->|Hc0]; [reflexivity|].
  rewrite type_of_Piece_ranges by lia. unfold BAN_PIECE.
  destruct (Z.eqb_spec (c * 16) 15) as [H15|_]; [lia|].
  destruct (Z.ltb_spec (c * 16) 16) as [H16|_]; [lia|].
  destruct (Z.eqb_spec c 1) as [->|Hc1]; [reflexivity|].
  destruct (Z.ltb_spec (c * 16) 32) as [H32|_]; [lia|reflexivity].
Qed.

Lemma type_of_make_piece_witness :
  0 <= 1 < 16 /\ (WHITE_PIECE = WHITE_PIECE \/ WHITE_PIECE = BLACK_PIECE) /\
  type_of_Piece (make_piece_of_type 1 WHITE_PIECE) = Some BLACK_PIECE.
Proof.
  assert (H1 : 0 <= 1 < 16) by lia.
  assert (H2 : WHITE_PIECE = WHITE_PIECE \/ WHITE_PIECE = BLACK_PIECE)
    by (left; reflexivity).
  split; [exact H1 | split; [exact H2|]].
  exact (proj1 (type_of_make_piece 1 WHITE_PIECE H1 H2)).
Defined.

(** The two coloured pieces: [W_PIECE] has the type [BLACK_PIECE] and
    [B_PIECE] has no piece type. *)
Example type_of_coloured_pieces :
  type_of_Piece W_PIECE = Some BLACK_PIECE /\
  type_of_Piece B_PIECE = Some NO_PIECE_TYPE.
Proof. split; reflexivity. Qed.

(** X11. [operator~] on a piece always gives one of the two coloured
    pieces, and applying it twice gives the piece back exactly for
    the two coloured pieces. *)
Theorem Piece_not_involution (pc : Piece) :
  (Piece_not pc = W_PIECE \/ Piece_not pc = B_PIECE) /\
  (Piece_not (Piece_not pc) = pc <-> pc = W_PIECE \/ pc = B_PIECE).
Proof.
  unfold Piece_not, W_PIECE, B_PIECE.
  destruct (Z.eqb_spec pc 16) as [->|H16].
  - cbn. split; [right; reflexivity|]. split; auto.
  - cbn. split; [left; reflexivity|].
    split; [intros <-; right; reflexivity|].
    intros [->| ->]; [contradiction | reflexivity].
Qed.

Lemma Color_not_twice c : Color_not (Color_not c) = c.
Proof.
  unfold Color_not. rewrite Z.lxor_assoc, Z.lxor_nilpotent, Z.lxor_0_r.
  reflexivity.
Qed.

Lemma Color_not_moves c : Color_not c <> c.
Proof.
  unfold Color_not. intros H.
  assert (E : Z.lxor c (Z.lxor c 3) = Z.lxor c c) by (rewrite H; reflexivity).
  rewrite <- Z.lxor_assoc, Z.lxor_nilpotent, Z.lxor_0_l in E. discriminate E.
Qed.

(** X12. On the two coloured pieces the colour of the swapped piece is
    the complement of the colour of the piece: [operator~] on [Color]
    exchanges the colour values 1 and 2 that [color_of] reads from
    [W_PIECE] and [B_PIECE]; on every value it is its own inverse and
    has no fixed point. *)
Theorem color_of_Piece_not (pc : Piece) (c : Color) :
  pc = W_PIECE \/ pc = B_PIECE ->
  color_of (Piece_not pc) = Color_not <$> color_of pc /\
  Color_not (Color_not c) = c /\
  Color_not c <> c.
Proof.
  intros Hpc. split; [|split; [apply Color_not_twice | apply Color_not_moves]].
  destruct Hpc as [-> | ->]; reflexivity.
Qed.

Lemma color_of_Piece_not_witness :
  (W_PIECE = W_PIECE \/ W_PIECE = B_PIECE) /\
  color_of (Piece_not W_PIECE) = Color_not <$> color_of W_PIECE.
Proof.
  assert (H : W_PIECE = W_PIECE \/ W_PIECE = B_PIECE) by (left; reflexivity).
  split; [exact H | exact (proj1 (color_of_Piece_not W_PIECE 0 H))].
Defined.

(** X13. For a ply from 0 to [MAX_PLY], [mate_in] lies between
    [VALUE_MATE_IN_MAX_PLY] and [VALUE_MATE], and [mated_in] is its
    opposite, between [-VALUE_MATE] and [VALUE_MATED_IN_MAX_PLY]. *)
Theorem mate_in_bounds (ply : Z) :
  0 <= ply <= MAX_PLY ->
  VALUE_MATE_IN_MAX_PLY <= mate_in ply <= VALUE_MATE /\
  mated_in ply = - mate_in ply /\
  - VALUE_MATE <= mated_in ply <= VALUE_MATED_IN_MAX_PLY.
Proof.
  unfold MAX_PLY. intros Hply.
  change VALUE_MATE_IN_MAX_PLY with 32. change VALUE_MATED_IN_MAX_PLY with (-32).
  unfold mate_in, mated_in, VALUE_MATE.
  change (Int.neg 80) with (-80).
  assert (E1 : Int.sub 80 ply = 80 - ply)
    by (unfold_int; Z.to_euclidean_division_equations; lia).
  assert (E2 : Int.add (-80) ply = -80 + ply)
    by (unfold_int; Z.to_euclidean_division_equations; lia).
  rewrite E1, E2. lia.
Qed.

Lemma mate_in_bounds_witness :
  0 <= 3 <= MAX_PLY /\
  VALUE_MATE_IN_MAX_PLY <= mate_in 3 <= VALUE_MATE /\
  mated_in 3 = - mate_in 3 /\
  - VALUE_MATE <= mated_in 3 <= VALUE_MATED_IN_MAX_PLY.
Proof.
  assert (H : 0 <= 3 <= MAX_PLY) by (unfold MAX_PLY; lia).
  split; [exact H | exact (mate_in_bounds 3 H)].
Defined.

(** X14. [convert_mate_value] commutes with the change of sign: the
    converted value of [-v] is the opposite of the converted value of
    [v]; and at ply 0 it leaves every value unchanged. *)
Theorem convert_mate_value_odd (v : Value) (ply : Z) :
  - 2147483648 < v < 2147483648 ->
  - 1073741824 <= ply <= 1073741824 ->
  convert_mate_value (Int.neg v) ply = Int.neg (convert_mate_value v ply) /\
  convert_mate_value v 0 = v.
Proof.
  intros Hv Hply.
  assert (Hneg : Int.neg v = - v)
    by (unfold_int; Z.to_euclidean_division_equations; lia).
  unfold convert_mate_value, mate_in, mated_in, VALUE_MATE.
  change (Int.neg 80) with (-80). rewrite Hneg.
  assert (E1 : Int.sub 80 ply = 80 - ply)
    by (unfold_int; Z.to_euclidean_division_equations; lia).
  assert (E2 : Int.add (-80) ply = -80 + ply)
    by (unfold_int; Z.to_euclidean_division_equations; lia).
  assert (E3 : Int.neg (80 - ply) = - (80 - ply))
    by (unfold_int; Z.to_euclidean_division_equations; lia).
  assert (E4 : Int.neg (-80 + ply) = - (-80 + ply))
    by (unfold_int; Z.to_euclidean_division_equations; lia).
  split.
  - destruct (Z.eqb_spec v 80) as [->|H80].
    + change (- (80)) with (-80). cbn [Z.eqb Pos.eqb]. rewrite E1, E2, E3. lia.
    + destruct (Z.eqb_spec v (-80)) as [->|Hm80].
      * change (- (-80)) with 80. cbn [Z.eqb Pos.eqb]. rewrite E1, E2, E4. lia.
      * destruct (Z.eqb_spec (- v) 80) as [E|_]; [lia|].
        destruct (Z.eqb_spec (- v) (-80)) as [E|_]; [lia|].
        symmetry. exact Hneg.
  - destruct (Z.eqb_spec v 80) as [->|H80]; [reflexivity|].
    destruct (Z.eqb_spec v (-80)) as [->|Hm80]; reflexivity.
Qed.

Lemma convert_mate_value_odd_witness :
  - 2147483648 < 80 < 2147483648 /\
  - 1073741824 <= 5 <= 1073741824 /\
  convert_mate_value (Int.neg 80) 5 = Int.neg (convert_mate_value 80 5) /\
  convert_mate_value 80 0 = 80.
Proof.
  assert (H1 : - 2147483648 < 80 < 2147483648) by lia.
  assert (H2 : - 1073741824 <= 5 <= 1073741824) by lia.
  split; [exact H1 | split; [exact H2 | exact (convert_mate_value_odd 80 5 H1 H2)]].
Defined.

(** *** Arithmetic of packed scores *)

Lemma to_int_small z : Int.in_signed 32 z -> Int.to_int z = z.
Proof. intros Hz. apply IntFacts.wrap_signed_small; [lia | exact Hz]. Qed.

Lemma in_signed_16_32 z : Int.in_signed 16 z -> Int.in_signed 32 z.
Proof. unfold Int.in_signed. simpl. lia. Qed.

(** The packed score is [eg * 2^16 + mg] wrapped to an [int]. *)
Lemma make_score_wrap mg eg : make_score mg eg = Int.to_int (eg * 65536 + mg).
Proof.
  unfold make_score, Int.add, Int.ushl, Int.to_unsigned, Int.to_int.
  rewrite IntFacts.wrap_signed_add_l by lia.
  apply IntFacts.wrap_signed_congr; [lia|].
  unfold Int.wrap_unsigned. rewrite Z.shiftl_mul_pow2 by lia.
  change (2 ^ 16) with 65536.
  rewrite <- Zplus_mod_idemp_l, Zmod_mod, Zplus_mod_idemp_l.
  rewrite <- (Zplus_mod_idemp_l (eg * 65536)), <- (Zmult_mod_idemp_l eg).
  rewrite Zplus_mod_idemp_l. reflexivity.
Qed.

Lemma to_int_add a b : Int.to_int (Int.to_int a + Int.to_int b) = Int.to_int (a + b).
Proof.
  unfold Int.to_int. rewrite IntFacts.wrap_signed_add_l by lia.
  rewrite (Z.add_comm a), IntFacts.wrap_signed_add_l by lia.
  f_equal. lia.
Qed.

Lemma to_int_mul_l a b : Int.to_int (Int.to_int a * b) = Int.to_int (a * b).
Proof.
  unfold Int.to_int. apply IntFacts.wrap_signed_congr; [lia|].
  rewrite <- Zmult_mod_idemp_l, IntFacts.wrap_signed_mod by lia.
  apply Zmult_mod_idemp_l.
Qed.

Lemma to_int_opp a : Int.to_int (- Int.to_int a) = Int.to_int (- a).
Proof.
  replace (- Int.to_int a) with (Int.to_int a * -1) by lia.
  rewrite to_int_mul_l. f_equal. lia.
Qed.

Lemma Score_add_make_score mg1 eg1 mg2 eg2 :
  Score_add (make_score mg1 eg1) (make_score mg2 eg2)
  = make_score (mg1 + mg2) (eg1 + eg2).
Proof.
  unfold Score_add, Int.add. rewrite !make_score_wrap, to_int_add.
  f_equal. lia.
Qed.

(** X15. The sum of two packed scores is the packed score of the sums
    of the components: when the two sums fit 16 bits, [mg_value] and
    [eg_value] of the sum are the sums of the middlegame and of the
    endgame values. *)
Theorem Score_add_components (mg1 eg1 mg2 eg2 : Z) :
  Int.in_signed 16 (mg1 + mg2) -> Int.in_signed 16 (eg1 + eg2) ->
  Score_add (make_score mg1 eg1) (make_score mg2 eg2)
  = make_score (mg1 + mg2) (eg1 + eg2) /\
  mg_value (Score_add (make_score mg1 eg1) (make_score mg2 eg2)) = mg1 + mg2 /\
  eg_value (Score_add (make_score mg1 eg1) (make_score mg2 eg2)) = eg1 + eg2.
Proof.
  intros Hmg Heg. rewrite Score_add_make_score.
  split; [reflexivity|]. split.
  - apply TypesFacts.mg_value_make_score; assumption.
  - apply TypesFacts.eg_value_make_score; assumption.
Qed.

Lemma Score_add_components_witness :
  Int.in_signed 16 (30000 + (-31000)) /\ Int.in_signed 16 (-5 + 7) /\
  mg_value (Score_add (make_score 30000 (-5)) (make_score (-31000) 7))
  = 30000 + (-31000) /\
  eg_value (Score_add (make_score 30000 (-5)) (make_score (-31000) 7))
  = -5 + 7.
Proof.
  assert (H1 : Int.in_signed 16 (30000 + (-31000)))
    by (unfold Int.in_signed; simpl; lia).
  assert (H2 : Int.in_signed 16 (-5 + 7)) by (unfold Int.in_signed; simpl; lia).
  split; [exact H1 | split; [exact H2|]].
  exact (proj2 (Score_add_components 30000 (-5) (-31000) 7 H1 H2)).
Defined.

(** X16. The opposite of a packed score is the packed score of the
    opposite components, when these fit 16 bits. *)
Theorem Score_neg_components (mg eg : Z) :
  Int.in_signed 16 (- mg) -> Int.in_signed 16 (- eg) ->
  Score_neg (make_score mg eg) = make_score (- mg) (- eg) /\
  mg_value (Score_neg (make_score mg eg)) = - mg /\
  eg_value (Score_neg (make_score mg eg)) = - eg.
Proof.
  intros Hmg Heg.
  assert (E : Score_neg (make_score mg eg) = make_score (- mg) (- eg)).
  { unfold Score_neg, Int.neg. rewrite !make_score_wrap, to_int_opp.
    f_equal. lia. }
  rewrite E. split; [reflexivity|]. split.
  - apply TypesFacts.mg_value_make_score; assumption.
  - apply TypesFacts.eg_value_make_score; assumption.
Qed.

Lemma Score_neg_components_witness :
  Int.in_signed 16 (- 120) /\ Int.in_signed 16 (- (-45)) /\
  Score_neg (make_score 120 (-45)) = make_score (- 120) (- (-45)) /\
  mg_value (Score_neg (make_score 120 (-45))) = - 120 /\
  eg_value (Score_neg (make_score 120 (-45))) = - (-45).
Proof.
  assert (H1 : Int.in_signed 16 (- 120)) by (unfold Int.in_signed; simpl; lia).
  assert (H2 : Int.in_signed 16 (- (-45))) by (unfold Int.in_signed; simpl; lia).
  split; [exact H1 | split; [exact H2 | exact (Score_neg_components 120 (-45) H1 H2)]].
Defined.

Lemma quot_in_signed_16 a i :
  Int.in_signed 16 a -> i <> 0 -> ~ (i = -1 /\ a = -32768) ->
  Int.in_signed 16 (Z.quot a i).
Proof.
  unfold Int.in_signed. change (2 ^ (16 - 1)) with 32768.
  intros Ha Hi Hex.
  destruct (Z.eq_dec i 1) as [->|Hi1]; [rewrite Z.quot_1_r; lia|].
  destruct (Z.eq_dec i (-1)) as [->|Him1].
  { replace a with ((- a) * -1) by lia. rewrite Z.quot_mul by lia. lia. }
  assert (Habs : Z.abs (Z.quot a i) <= 16384).
  { rewrite <- Z.quot_abs by exact Hi.
    rewrite Z.quot_div_nonneg by lia.
    apply Z.div_le_upper_bound; lia. }
  lia.
Qed.

Lemma Int_div_16 a i :
  Int.in_signed 16 a -> i <> 0 -> ~ (i = -1 /\ a = -32768) ->
  Int.div a i = Some (Z.quot a i).
Proof.
  intros Ha Hi Hex. unfold Int.div.
  destruct (Z.eqb_spec i 0) as [E|_]; [contradiction|].
  rewrite to_int_small; [reflexivity|].
  apply in_signed_16_32, quot_in_signed_16; assumption.
Qed.

Lemma Score_div_make_score mg eg i :
  Int.in_signed 16 mg -> Int.in_signed 16 eg -> i <> 0 ->
  ~ (i = -1 /\ (mg = -32768 \/ eg = -32768)) ->
  Score_div (make_score mg eg) i
  = Some (make_score (Z.quot mg i) (Z.quot eg i)).
Proof.
  intros Hmg Heg Hi Hex. unfold Score_div.
  rewrite TypesFacts.mg_value_make_score, TypesFacts.eg_value_make_score
    by assumption.
  rewrite !Int_div_16 by (assumption || tauto). reflexivity.
Qed.

(** X17. The division of a packed score by a non-zero integer divides
    each component, rounding toward zero; the division by zero has no
    result.  The quotient -32768 / -1, which does not fit 16 bits, is
    left out. *)
Theorem Score_div_components (mg eg i : Z) :
  Int.in_signed 16 mg -> Int.in_signed 16 eg -> i <> 0 ->
  ~ (i = -1 /\ (mg = -32768 \/ eg = -32768)) ->
  exists q,
    Score_div (make_score mg eg) i = Some q /\
    mg_value q = Z.quot mg i /\ eg_value q = Z.quot eg i /\
    Score_div (make_score mg eg) 0 = None.
Proof.
  intros Hmg Heg Hi Hex. eexists. split.
  - apply Score_div_make_score; assumption.
  - split; [|split].
    + apply TypesFacts.mg_value_make_score;
        apply quot_in_signed_16; (assumption || tauto).
    + apply TypesFacts.eg_value_make_score;
        apply quot_in_signed_16; (assumption || tauto).
    + reflexivity.
Qed.

Lemma Score_div_components_witness :
  Int.in_signed 16 (-7) /\ Int.in_signed 16 9 /\ 2 <> 0 /\
  ~ (2 = -1 /\ (-7 = -32768 \/ 9 = -32768)) /\
  exists q,
    Score_div (make_score (-7) 9) 2 = Some q /\
    mg_value q = Z.quot (-7) 2 /\ eg_value q = Z.quot 9 2 /\
    Score_div (make_score (-7) 9) 0 = None.
Proof.
  assert (H1 : Int.in_signed 16 (-7)) by (unfold Int.in_signed; simpl; lia).
  assert (H2 : Int.in_signed 16 9) by (unfold Int.in_signed; simpl; lia).
  assert (H3 : 2 <> 0) by lia.
  assert (H4 : ~ (2 = -1 /\ (-7 = -32768 \/ 9 = -32768))) by lia.
  split; [exact H1 | split; [exact H2 | split; [exact H3 | split; [exact H4|]]]].
  exact (Score_div_components (-7) 9 2 H1 H2 H3 H4).
Defined.

(** The quotient rounds toward zero, not down. *)
Example Score_div_rounds_to_zero :
  (mg_value <$> Score_div (make_score (-7) 9) 2) = Some (-3).
Proof. reflexivity. Qed.

Lemma Int_mul_make_score mg eg i :
  Int.mul (make_score mg eg) i = make_score (i * mg) (i * eg).
Proof.
  unfold Int.mul. rewrite !make_score_wrap, to_int_mul_l. f_equal. lia.
Qed.

Lemma score_product_checked mg eg i :
  Int.in_signed 16 mg -> Int.in_signed 16 eg -> Int.in_signed 32 i ->
  Int.in_signed 16 (i * mg) -> Int.in_signed 16 (i * eg) ->
  Score_mul (make_score mg eg) i = Some (make_score (i * mg) (i * eg)) /\
  mg_value (make_score (i * mg) (i * eg)) = i * mg /\
  eg_value (make_score (i * mg) (i * eg)) = i * eg.
Proof.
  intros Hmg Heg Hi HM HE.
  pose proof (TypesFacts.mg_value_make_score _ _ HM HE) as Rm.
  pose proof (TypesFacts.eg_value_make_score _ _ HM HE) as Re.
  split; [|split; assumption].
  unfold Score_mul. rewrite Int_mul_make_score, Rm, Re.
  rewrite TypesFacts.mg_value_make_score, TypesFacts.eg_value_make_score
    by assumption.
  unfold Int.mul.
  rewrite !to_int_small by (apply in_signed_16_32; assumption).
  rewrite !Z.eqb_refl. cbn [negb].
  destruct (Z.eqb_spec i 0) as [->|Hi0]; [reflexivity|].
  cbn [orb].
  assert (D : Score_div (make_score (i * mg) (i * eg)) i
              = Some (make_score mg eg)).
  { unfold Score_div. rewrite Rm, Re. unfold Int.div.
    destruct (Z.eqb_spec i 0) as [E|_]; [contradiction|].
    rewrite (Z.mul_comm i mg), (Z.mul_comm i eg), !Z.quot_mul by exact Hi0.
    cbn [mbind option_bind].
    rewrite !to_int_small by (apply in_signed_16_32; assumption).
    reflexivity. }
  rewrite D, Z.eqb_refl. reflexivity.
Qed.


(** X18. The product of a packed score by an integer passes its three
    assertions and is the packed score of the products of the
    components, whenever the two products fit 16 bits. *)
Theorem Score_mul_components (mg eg i : Z) :
  Int.in_signed 16 mg -> Int.in_signed 16 eg -> Int.in_signed 32 i ->
  Int.in_signed 16 (i * mg) -> Int.in_signed 16 (i * eg) ->
  Score_mul (make_score mg eg) i = Some (make_score (i * mg) (i * eg)) /\
  mg_value (make_score (i * mg) (i * eg)) = i * mg /\
  eg_value (make_score (i * mg) (i * eg)) = i * eg.
Proof. apply score_product_checked. Qed.

Lemma Score_mul_components_witness :
  Int.in_signed 16 (-7) /\ Int.in_signed 16 9 /\ Int.in_signed 32 3 /\
  Int.in_signed 16 (3 * -7) /\ Int.in_signed 16 (3 * 9) /\
  Score_mul (make_score (-7) 9) 3 = Some (make_score (3 * -7) (3 * 9)).
Proof.
  assert (H1 : Int.in_signed 16 (-7)) by (unfold Int.in_signed; simpl; lia).
  assert (H2 : Int.in_signed 16 9) by (unfold Int.in_signed; simpl; lia).
  assert (H3 : Int.in_signed 32 3) by (unfold Int.in_signed; simpl; lia).
  assert (H4 : Int.in_signed 16 (3 * -7)) by (unfold Int.in_signed; simpl; lia).
  assert (H5 : Int.in_signed 16 (3 * 9)) by (unfold Int.in_signed; simpl; lia).
  split; [exact H1 | split; [exact H2 | split; [exact H3 |
    split; [exact H4 | split; [exact H5|]]]]].
  exact (proj1 (Score_mul_components (-7) 9 3 H1 H2 H3 H4 H5)).
Defined.

(** A product whose middlegame component leaves 16 bits fails the
    assertions. *)
Example Score_mul_overflow : Score_mul (make_score 20000 1) 2 = None.
Proof. reflexivity. Qed.

(** *** Keys *)

(** The multiplier of [make_key] is odd, hence invertible modulo 2^64. *)
Lemma key_multiplier_inverse :
  (6364136223846793005 * 13877824140714322085) mod 2 ^ 64 = 1.
Proof. reflexivity. Qed.

Lemma make_key_mod seed :
  make_key seed = (seed * 6364136223846793005 + 1442695040888963407) mod 2 ^ 64.
Proof.
  unfold make_key, Int.to_uint64, Int.wrap_unsigned.
  apply Zplus_mod_idemp_l.
Qed.

Lemma seed_of_make_key seed :
  Int.in_unsigned 64 seed ->
  ((make_key seed - 1442695040888963407) * 13877824140714322085) mod 2 ^ 64
  = seed.
Proof.
  intros Hs. rewrite make_key_mod.
  rewrite <- Zmult_mod_idemp_l, Zminus_mod_idemp_l, Zmult_mod_idemp_l.
  replace ((seed * 6364136223846793005 + 1442695040888963407
            - 1442695040888963407) * 13877824140714322085)
    with (seed * (6364136223846793005 * 13877824140714322085)) by lia.
  rewrite <- Zmult_mod_idemp_r, key_multiplier_inverse, Z.mul_1_r.
  apply Z.mod_small. exact Hs.
Qed.

(** X19. [make_key] sends distinct 64-bit seeds to distinct keys, and
    its values are 64-bit keys. *)
Theorem make_key_injective (a b : Z) :
  Int.in_unsigned 64 a -> Int.in_unsigned 64 b ->
  a <> b ->
  make_key a <> make_key b /\ Int.in_unsigned 64 (make_key a).
Proof.
  intros Ha Hb Hne. split.
  - intros E. apply Hne.
    rewrite <- (seed_of_make_key a Ha), <- (seed_of_make_key b Hb), E.
    reflexivity.
  - rewrite make_key_mod. unfold Int.in_unsigned.
    apply Z.mod_pos_bound. reflexivity.
Qed.

Lemma make_key_injective_witness :
  Int.in_unsigned 64 1 /\ Int.in_unsigned 64 18446744073709551615 /\
  1 <> 18446744073709551615 /\
  make_key 1 <> make_key 18446744073709551615.
Proof.
  assert (H1 : Int.in_unsigned 64 1) by (unfold Int.in_unsigned; simpl; lia).
  assert (H2 : Int.in_unsigned 64 18446744073709551615)
    by (unfold Int.in_unsigned; simpl; lia).
  assert (H3 : 1 <> 18446744073709551615) by lia.
  split; [exact H1 | split; [exact H2 | split; [exact H3|]]].
  exact (proj1 (make_key_injective 1 18446744073709551615 H1 H2 H3)).
Defined.

(** *** Piece sets *)

Lemma piece_set_pow pt : 0 <= pt < 64 -> piece_set pt = 2 ^ pt.
Proof.
  intros Hpt. unfold piece_set, Int.to_uint64, Int.wrap_unsigned.
  rewrite Z.shiftl_mul_pow2, Z.mul_1_l by lia.
  apply Z.mod_small. split; [apply Z.pow_nonneg; lia|].
  apply Z.pow_lt_mono_r; lia.
Qed.

Lemma land_pow_testbit x k :
  0 <= k -> (Z.land x (2 ^ k) <> 0 <-> Z.testbit x k = true).
Proof.
  intros Hk.
  assert (E : Z.land x (2 ^ k) = if Z.testbit x k then 2 ^ k else 0).
  { apply Z.bits_inj'. intros n Hn. rewrite Z.land_spec.
    destruct (Z.eq_dec n k) as [->|Hne].
    - rewrite Z.pow2_bits_true by lia. rewrite andb_true_r.
      destruct (Z.testbit x k); [rewrite Z.pow2_bits_true by lia; reflexivity|].
      rewrite Z.bits_0. reflexivity.
    - rewrite Z.pow2_bits_false by lia. rewrite andb_false_r.
      destruct (Z.testbit x k); [rewrite Z.pow2_bits_false by lia; reflexivity|].
      rewrite Z.bits_0. reflexivity. }
  rewrite E. destruct (Z.testbit x k).
  - split; [reflexivity|]. intros _.
    assert (0 < 2 ^ k) by (apply Z.pow_pos_nonneg; lia). lia.
  - split; [contradiction | discriminate].
Qed.

Lemma PieceSet_test_testbit ps pt :
  0 <= pt < 64 -> (PieceSet_test ps pt <> 0 <-> Z.testbit ps pt = true).
Proof.
  intros Hpt. unfold PieceSet_test, PieceSet_and.
  rewrite piece_set_pow by exact Hpt. apply land_pow_testbit. lia.
Qed.

(** X20. After a piece type is added to a set, the test of a piece type
    succeeds exactly when it is the added one or the test succeeded
    before; a piece type tests positive against its own set (the
    [static_assert] of the header), and no type belongs to the empty
    set. *)
Theorem PieceSet_add_test (ps : PieceSet) (pt pt' : PieceType) :
  0 <= pt < 64 -> 0 <= pt' < 64 ->
  (PieceSet_test (PieceSet_add ps pt) pt' <> 0
   <-> pt' = pt \/ PieceSet_test ps pt' <> 0) /\
  PieceSet_test (piece_set pt) pt <> 0 /\
  PieceSet_test NO_PIECE_SET pt = 0.
Proof.
  intros Hpt Hpt'. split; [|split].
  - rewrite !PieceSet_test_testbit by assumption.
    unfold PieceSet_add, PieceSet_or. rewrite piece_set_pow by exact Hpt.
    rewrite Z.lor_spec, orb_true_iff.
    destruct (Z.eq_dec pt' pt) as [->|Hne].
    + rewrite Z.pow2_bits_true by lia. tauto.
    + rewrite Z.pow2_bits_false by lia. split.
      * intros [H|H]; [right; exact H | discriminate H].
      * intros [H|H]; [contradiction | left; exact H].
  - rewrite PieceSet_test_testbit, piece_set_pow by assumption.
    apply Z.pow2_bits_true. lia.
  - unfold PieceSet_test, PieceSet_and, NO_PIECE_SET. apply Z.land_0_l.
Qed.

Lemma PieceSet_add_test_witness :
  0 <= BAN < 64 /\ 0 <= BAN < 64 /\
  (PieceSet_test (PieceSet_add NO_PIECE_SET BAN) BAN <> 0
   <-> BAN = BAN \/ PieceSet_test NO_PIECE_SET BAN <> 0).
Proof.
  assert (H : 0 <= BAN < 64) by (unfold BAN; lia).
  split; [exact H | split; [exact H|]].
  exact (proj1 (PieceSet_add_test NO_PIECE_SET BAN BAN H H)).
Defined.

(** X21. The complement of a 64-bit set contains a piece type exactly
    when the set does not, and is again a 64-bit set. *)
Theorem PieceSet_not_test (ps : PieceSet) (pt : PieceType) :
  Int.in_unsigned 64 ps -> 0 <= pt < 64 ->
  (PieceSet_test (PieceSet_not ps) pt <> 0 <-> PieceSet_test ps pt = 0) /\
  Int.in_unsigned 64 (PieceSet_not ps).
Proof.
  intros Hps Hpt. split.
  - rewrite PieceSet_test_testbit by exact Hpt.
    assert (Hz : PieceSet_test ps pt = 0 <-> Z.testbit ps pt = false).
    { pose proof (PieceSet_test_testbit ps pt Hpt) as T.
      destruct (Z.testbit ps pt).
      - split; [|discriminate]. intros E. exfalso. apply (proj2 T); auto.
      - split; [reflexivity|]. intros _.
        destruct (Z.eq_dec (PieceSet_test ps pt) 0) as [E|N]; [exact E|].
        apply T in N. discriminate N. }
    rewrite Hz. unfold PieceSet_not, Int.to_uint64, Int.wrap_unsigned.
    rewrite Z.mod_pow2_bits_low by lia. rewrite Z.lnot_spec by lia.
    destruct (Z.testbit ps pt); cbn [negb]; split; congruence.
  - unfold PieceSet_not, Int.to_uint64, Int.wrap_unsigned, Int.in_unsigned.
    apply Z.mod_pos_bound. reflexivity.
Qed.

Lemma PieceSet_not_test_witness :
  Int.in_unsigned 64 (piece_set BAN) /\ 0 <= WHITE_PIECE < 64 /\
  (PieceSet_test (PieceSet_not (piece_set BAN)) WHITE_PIECE <> 0
   <-> PieceSet_test (piece_set BAN) WHITE_PIECE = 0).
Proof.
  assert (H1 : Int.in_unsigned 64 (piece_set BAN))
    by (unfold Int.in_unsigned; vm_compute; split; [discriminate | reflexivity]).
  assert (H2 : 0 <= WHITE_PIECE < 64) by (unfold WHITE_PIECE; lia).
  split; [exact H1 | split; [exact H2|]].
  exact (proj1 (PieceSet_not_test (piece_set BAN) WHITE_PIECE H1 H2)).
Defined.

(** X22. The product of a packed score by a boolean is the product by
    the integer 1 or 0. *)
Theorem Score_mul_bool_as_int (mg eg : Z) (b : bool) :
  Int.in_signed 16 mg -> Int.in_signed 16 eg ->
  Score_mul (make_score mg eg) (if b then 1 else 0)
  = Some (Score_mul_bool (make_score mg eg) b).
Proof.
  intros Hmg Heg.
  assert (H1 : Int.in_signed 32 1) by (unfold Int.in_signed; simpl; lia).
  assert (H0 : Int.in_signed 32 0) by (unfold Int.in_signed; simpl; lia).
  assert (Z16 : Int.in_signed 16 0) by (unfold Int.in_signed; simpl; lia).
  destruct b; cbn [Score_mul_bool].
  - pose proof (score_product_checked mg eg 1) as E.
    rewrite !Z.mul_1_l in E. apply E; assumption.
  - pose proof (score_product_checked mg eg 0) as E.
    rewrite !Z.mul_0_l in E. apply E; assumption.
Qed.

Lemma Score_mul_bool_as_int_witness :
  Int.in_signed 16 (-7) /\ Int.in_signed 16 9 /\
  Score_mul (make_score (-7) 9) 1 = Some (Score_mul_bool (make_score (-7) 9) true).
Proof.
  assert (H1 : Int.in_signed 16 (-7)) by (unfold Int.in_signed; simpl; lia).
  assert (H2 : Int.in_signed 16 9) by (unfold Int.in_signed; simpl; lia).
  split; [exact H1 | split; [exact H2|]].
  exact (Score_mul_bool_as_int (-7) 9 true H1 H2).
Defined.

End TypesOpsFacts.

Module HashFacts.
Import EvaluateNNUE.

(** X23. For a fixed hash of the feature transformer, distinct hashes
    of the network give distinct combined values; and the combined
    value is 0 exactly when the two component hashes are equal. *)
Theorem HashValue_cancel (a b b' : Z) :
  (HashValue a b = HashValue a b' <-> b = b') /\
  (HashValue a b = 0 <-> a = b).
Proof.
  unfold HashValue. split.
  - split; [|intros ->; reflexivity].
    intros E.
    assert (E' : Z.lxor a (Z.lxor a b) = Z.lxor a (Z.lxor a b'))
      by (rewrite E; reflexivity).
    rewrite <- !Z.lxor_assoc, Z.lxor_nilpotent, !Z.lxor_0_l in E'. exact E'.
  - apply Z.lxor_eq_0_iff.
Qed.

End HashFacts.

(** * Instances of the theorems *)

Module Witnesses.
Import Types Architecture EvaluateNNUE FeatureTransformer WeightStore Examples.

Lemma score_roundtrip_witness :
  Int.in_signed 16 (-7) /\ Int.in_signed 16 12 /\
  mg_value (make_score (-7) 12) = -7 /\ eg_value (make_score (-7) 12) = 12.
Proof.
  assert (H1 : Int.in_signed 16 (-7)) by (unfold Int.in_signed; simpl; lia).
  assert (H2 : Int.in_signed 16 12) by (unfold Int.in_signed; simpl; lia).
  split; [exact H1 | split; [exact H2 | exact (TypesFacts.score_roundtrip (-7) 12 H1 H2)]].
Defined.

Lemma HashValue_is_symmetric_xor_witness :
  Int.in_unsigned 32 2024541055 /\ Int.in_unsigned 32 1664315734 /\
  HashValue 2024541055 1664315734 = Z.lxor 2024541055 1664315734 /\
  Int.in_unsigned 32 (HashValue 2024541055 1664315734) /\
  HashValue 2024541055 1664315734 = HashValue 1664315734 2024541055.
Proof.
  assert (Ha : Int.in_unsigned 32 2024541055)
    by (unfold Int.in_unsigned; simpl; lia).
  assert (Hb : Int.in_unsigned 32 1664315734)
    by (unfold Int.in_unsigned; simpl; lia).
  split; [exact Ha | split; [exact Hb|]].
  exact (EvaluateNNUEFacts.HashValue_is_symmetric_xor 2024541055 1664315734 Ha Hb).
Defined.





Example line0_computed :
  update_along P0 b0 (refresh P0 b0) line0 = inr (refresh P0 b2).
Proof. vm_compute. reflexivity. Qed.



(** With rows of 30000 the two active features of [b0] saturate the
    entry at 32767; taking one off leaves 2767, where a full refresh of
    the new board gives 30000. *)
Example saturated_update :
  first_entry (inr (refresh P1 b0)) = Some 32767 /\
  first_entry (update_along P1 b0 (refresh P1 b0) line1) = Some 2767 /\
  first_entry (inr (refresh P1 (final_board b0 line1))) = Some 30000.
Proof. repeat split; vm_compute; reflexivity. Qed.


(** A delta that takes a piece off an empty square is refused. *)
Example update_refuses_inactive_removal :
  update P0 b0 (one_record W_PIECE 20 20) (refresh P0 b0)
  = inl InternalConsistency.
Proof. vm_compute. reflexivity. Qed.

(** A stale parent is refused. *)
Example update_refuses_stale_parent :
  update P0 b0 (one_record W_PIECE 8 16) Accumulator_zero
  = inl InternalConsistency.
Proof. reflexivity. Qed.

Lemma Accumulator_zero_wf : Accumulator_wf Accumulator_zero.
Proof.
  unfold Accumulator_wf, Accumulator_zero, is_array.
  cbn [accumulation psqtAccumulation computed].
  rewrite !length_replicate.
  repeat split; try reflexivity; apply Forall_replicate; try exact I;
    (split; [apply length_replicate|]); apply Forall_replicate;
    unfold Int.in_signed; simpl; lia.
Defined.

Lemma Accumulator_shape_witness :
  Accumulator_wf Accumulator_zero /\
  exists v0 v1 s0 s1 (c0 c1 : bool),
    Accumulator_zero = mkAccumulator [v0; v1] [s0; s1] [c0; c1] /\
    (length v0 = 512%nat /\ Forall (Int.in_signed 16) v0) /\
    (length v1 = 512%nat /\ Forall (Int.in_signed 16) v1) /\
    (length s0 = 8%nat /\ Forall (Int.in_signed 32) s0) /\
    (length s1 = 8%nat /\ Forall (Int.in_signed 32) s1).
Proof.
  split; [exact Accumulator_zero_wf|].
  exact (proj2 (proj2 (ArchitectureFacts.Accumulator_shape
                         Accumulator_zero Accumulator_zero_wf))).
Defined.

Lemma dp0_wf : DirtyPiece_wf dp0.
Proof. repeat split. Defined.

Lemma DirtyPiece_records_witness :
  DirtyPiece_wf dp0 /\ (0 < DirtyPiece_extent)%nat /\
  (3 <= DirtyPiece_extent)%nat /\
  dirty_record dp0 0 = Some (W_PIECE, 8, 16).
Proof.
  assert (Hi : (0 < DirtyPiece_extent)%nat) by (unfold DirtyPiece_extent; lia).
  split; [exact dp0_wf | split; [exact Hi|]].
  destruct (TypesFacts.DirtyPiece_records dp0 0 dp0_wf Hi) as (H3 & _ & _).
  split; [exact H3 | reflexivity].
Defined.

Lemma release_matches_allocation_witness :
  heap m0 !! 64 = Some (mkBlock LargePages true) /\
  heap m0 !! 128 = Some (mkBlock StdAligned true) /\
  release (LargePagePtr 64) m0
  = inr (mk_unique_ptr LargePageDeleter_t None,
         mkMemory (delete 64 (heap m0))
           (trace m0 ++ [EvDestructor 64; EvLargePagesFree 64])) /\
  release (AlignedPtr 128) m0
  = inr (mk_unique_ptr AlignedDeleter_t None,
         mkMemory (delete 128 (heap m0))
           (trace m0 ++ [EvDestructor 128; EvStdAlignedFree 128])).
Proof.
  assert (Hp : heap m0 !! 64 = Some (mkBlock LargePages true))
    by (vm_compute; reflexivity).
  assert (Hq : heap m0 !! 128 = Some (mkBlock StdAligned true))
    by (vm_compute; reflexivity).
  split; [exact Hp | split; [exact Hq|]].
  pose proof (EvaluateNNUEFacts.release_matches_allocation m0 64 128 Hp Hq) as H.
  cbv zeta in H. destruct H as (H1 & H2 & _). split; [exact H1 | exact H2].
Defined.

Example load_ok :
  load le_combine 305419896 3 (open_source source0)
  = (inr [Byte.x01; Byte.x02; Byte.x03], mkReader [] 7 [3%nat]).
Proof. reflexivity. Qed.

Example load_truncated :
  load le_combine 305419896 4 (open_source source0)
  = (inl TruncatedData,
     mkReader [Byte.x01; Byte.x02; Byte.x03] 4 []).
Proof. reflexivity. Qed.

Lemma load_rejects_mismatched_hash_witness :
  length header0 = hash_field_bytes /\
  le_combine header0 <> 305419897 /\
  load le_combine 305419897 3 (open_source (header0 ++ params0))
  = (inl IncompatibleTopology, mkReader params0 hash_field_bytes []).
Proof.
  assert (H1 : length header0 = hash_field_bytes) by reflexivity.
  assert (H2 : le_combine header0 <> 305419897) by (vm_compute; discriminate).
  split; [exact H1 | split; [exact H2|]].
  exact (WeightStoreFacts.load_rejects_mismatched_hash
           le_combine 305419897 3 header0 params0 H1 H2).
Defined.

End Witnesses.
